(** * A verification model of the YaNotes transport (tuman-vpn)

    Shallow embedding of [src/core/storage/yanotes.py] and of the two
    tunnel loops ([src/client/tunnel.py], [src/server/tunnel.py]).
    Python [str] values are lists of Unicode code points ([pystr]),
    Python [bytes] values are lists of bytes; dicts are [gmap]s and sets
    are [gset]s.  Library code that is not part of the repository
    (base65536, AES-GCM, [int()], the Unicode character classes of [re])
    appears as section variables. *)

From Stdlib Require Import ZArith List Strings.String Strings.Ascii Strings.Byte.
From Stdlib Require DecimalFacts DecimalN.
From stdpp Require Import base gmap sets list strings.
Import ListNotations.
Open Scope Z_scope.

(* ------------------------------------------------------------------ *)
(** ** Python values *)

Definition pystr := list Z.
Definition bytes := list Byte.byte.

(** A string literal of the source, as its code points. *)
Definition s2l (s : string) : pystr :=
  map (fun a => Z.of_nat (nat_of_ascii a)) (list_ascii_of_string s).

Definition TYPE_DATA : pystr := s2l "DATA".
Definition TYPE_RQST : pystr := s2l "RQST".
Definition TYPE_RESP : pystr := s2l "RESP".

Definition MAX_SNIPPET_CHARS : Z := 2000000.

Definition pystr_eqb (a b : pystr) : bool := bool_decide (a = b).

(** [prefix p s]: [s.startswith(p)]. *)
Fixpoint prefixb (p s : pystr) : bool :=
  match p, s with
  | [], _ => true
  | x :: p', y :: s' => (x =? y) && prefixb p' s'
  | _ :: _, [] => false
  end.

(** [sub in s] for a non-empty [sub]. *)
Fixpoint py_in (sub s : pystr) : bool :=
  prefixb sub s || match s with [] => false | _ :: s' => py_in sub s' end.

(** [s.split(sep)] for a non-empty [sep]: scan left to right; after a
    match the remaining [length sep - 1] characters of the separator are
    skipped. *)
Fixpoint split_go (sep : pystr) (skip : nat) (cur : pystr) (s : pystr)
  : list pystr :=
  match s with
  | [] => [rev cur]
  | c :: s' =>
      match skip with
      | S k => split_go sep k cur s'
      | O => if prefixb sep s
             then rev cur :: split_go sep (pred (length sep)) [] s'
             else split_go sep O (c :: cur) s'
      end
  end.

Definition py_split (sep s : pystr) : list pystr := split_go sep O [] s.

(** [s.replace(old, new)] = [new.join(s.split(old))] for a non-empty [old]. *)
Fixpoint py_join (sep : pystr) (l : list pystr) : pystr :=
  match l with
  | [] => []
  | [x] => x
  | x :: l' => x ++ sep ++ py_join sep l'
  end.

Definition py_replace (old new s : pystr) : pystr := py_join new (py_split old s).

Definition py_last (l : list pystr) : pystr := List.last l [].

(* ------------------------------------------------------------------ *)
(** ** Note pool ([_get_free_note], [_release_note]) *)

Module NotePool.

Record pool := mk_pool { free_notes : gset pystr; busy_notes : gset pystr }.

(** [__init__]: [self._free_notes = set(self.write_pool)], busy empty. *)
Definition init_pool (write_pool : list pystr) : pool :=
  mk_pool (list_to_set write_pool) ∅.

(** [_get_free_note] when [set.pop()] hands out [nid]: Python's choice
    is arbitrary, so the element is a parameter that must be free. *)
Definition get_free_note_as (nid : pystr) (p : pool) : option (pystr * pool) :=
  if bool_decide (nid ∈ free_notes p)
  then Some (nid, mk_pool (free_notes p ∖ {[nid]}) ({[nid]} ∪ busy_notes p))
  else None.

(** [_release_note]: [busy.discard(nid)]; [free.add(nid)]. *)
Definition release_note (nid : pystr) (p : pool) : pool :=
  mk_pool ({[nid]} ∪ free_notes p) (busy_notes p ∖ {[nid]}).

(** One call on the pool.  [_get_free_note] returns [None] and changes
    nothing exactly when [free] is empty. *)
Inductive pool_step (wp : list pystr) : pool -> option pystr -> pool -> Prop :=
| step_get nid p p' :
    get_free_note_as nid p = Some (nid, p') -> pool_step wp p (Some nid) p'
| step_get_none p :
    free_notes p = ∅ -> pool_step wp p None p
| step_release nid p :
    nid ∈ wp -> pool_step wp p None (release_note nid p).

Inductive reachable (wp : list pystr) : pool -> Prop :=
| reach_init : reachable wp (init_pool wp)
| reach_step p r p' : reachable wp p -> pool_step wp p r p' -> reachable wp p'.

Definition partitioned (wp : list pystr) (p : pool) : Prop :=
  free_notes p ∩ busy_notes p = ∅ /\
  free_notes p ∪ busy_notes p = list_to_set wp.

End NotePool.

(* ------------------------------------------------------------------ *)
(** ** Inbox ([_store_entry], [get], [head]) *)

Module Inbox.

(** A value of [inbox_data[key][chunk]]: raw [bytes] for a DATA key, a
    [(total, data)] tuple for an RQST/RESP key. *)
Inductive ival := IRaw (d : bytes) | ITot (total : Z) (d : bytes).

Record inbox := mk_inbox {
  inbox_data : gmap pystr (gmap Z ival);
  inbox_complete : gmap pystr bytes;
  pending_requests : list (pystr * bytes) }.

Definition empty_inbox : inbox := mk_inbox ∅ ∅ [].

(** The dict returned by [_parse_title]. *)
Record parsed := mk_parsed {
  p_direction : Z; p_request_id : pystr; p_chunk : Z; p_total : Z; p_type : pystr }.

(** [f"{rid}:{mtype}"] *)
Definition inbox_key (rid mtype : pystr) : pystr := rid ++ [58] ++ mtype.

(** [chunks[i][1]]; the keys of RQST/RESP messages only ever hold tuples. *)
Definition ival_payload (v : ival) : bytes :=
  match v with IRaw d => d | ITot _ d => d end.

(** [len(chunks) == total and all(i in chunks for i in range(1, total + 1))] *)
Definition all_chunks_present (chunks : gmap Z ival) (total : Z) : bool :=
  (Z.of_nat (size chunks) =? total) &&
  forallb (fun i => bool_decide (is_Some (chunks !! i))) (seqZ 1 total).

(** [[chunks[i][1] for i in range(1, total + 1)]] *)
Definition chunks_in_order (chunks : gmap Z ival) (total : Z) : list bytes :=
  map (fun i => from_option ival_payload [] (chunks !! i)) (seqZ 1 total).

Definition push_if_rqst (mtype rid : pystr) (d : bytes)
    (q : list (pystr * bytes)) : list (pystr * bytes) :=
  if pystr_eqb mtype TYPE_RQST then q ++ [(rid, d)] else q.

Definition store_entry (p : parsed) (data : bytes) (st : inbox) : inbox :=
  let rid := p_request_id p in
  let mtype := p_type p in
  let chunk := p_chunk p in
  let total := p_total p in
  let key := inbox_key rid mtype in
  if pystr_eqb mtype TYPE_DATA then
    let chunks := from_option id ∅ (inbox_data st !! key) in
    mk_inbox (<[key := <[chunk := IRaw data]> chunks]> (inbox_data st))
             (inbox_complete st) (pending_requests st)
  else if total <=? 1 then
    mk_inbox (inbox_data st) (<[key := data]> (inbox_complete st))
             (push_if_rqst mtype rid data (pending_requests st))
  else
    let chunks := <[chunk := ITot total data]>
                    (from_option id ∅ (inbox_data st !! key)) in
    if all_chunks_present chunks total then
      let parts := chunks_in_order chunks total in
      (* [if chunks_to_assemble:] a list of [total > 1] elements is truthy *)
      match parts with
      | [] => mk_inbox (delete key (inbox_data st)) (inbox_complete st)
                       (pending_requests st)
      | _ :: _ =>
          let assembled := List.concat parts in
          mk_inbox (delete key (inbox_data st))
                   (<[key := assembled]> (inbox_complete st))
                   (push_if_rqst mtype rid assembled (pending_requests st))
      end
    else
      mk_inbox (<[key := chunks]> (inbox_data st)) (inbox_complete st)
               (pending_requests st).

(** What one [_store_entry] call does to an RQST/RESP unit of a
    multi-chunk message ([total > 1]). *)
Definition multi_chunk_effect (st : inbox) (p : parsed) (data : bytes) : Prop :=
  let key := inbox_key (p_request_id p) (p_type p) in
  let chunks := <[p_chunk p := ITot (p_total p) data]>
                  (from_option id ∅ (inbox_data st !! key)) in
  let body := List.concat (chunks_in_order chunks (p_total p)) in
  let st' := store_entry p data st in
  (dom chunks = list_to_set (seqZ 1 (p_total p)) ->
     inbox_data st' = delete key (inbox_data st) /\
     inbox_complete st' = <[key := body]> (inbox_complete st) /\
     pending_requests st' =
       push_if_rqst (p_type p) (p_request_id p) body (pending_requests st)) /\
  (dom chunks <> list_to_set (seqZ 1 (p_total p)) ->
     inbox_data st' = <[key := chunks]> (inbox_data st) /\
     inbox_complete st' = inbox_complete st /\
     pending_requests st' = pending_requests st).

End Inbox.

(* ------------------------------------------------------------------ *)
(** ** Router paths and the one-shot inbox API ([get], [head]) *)

Module Router.
Import Inbox.

Section Paths.
(** Python's [int()] on a string; [None] when it raises [ValueError]. *)
Variable py_int : pystr -> option Z.

(** [_parse_storage_path]: [None] when [int(parts[1])] raises. *)
Definition parse_storage_path (path : pystr) : option (pystr * pystr * option Z) :=
  let filename := py_replace (s2l ".json") [] (py_last (py_split (s2l "/") path)) in
  if py_in (s2l "_c") filename then
    let parts := py_split (s2l "_c") filename in
    match py_int (nth 1 parts []) with
    | Some n => Some (nth 0 parts [], s2l "D", Some n)
    | None => None
    end
  else if py_in (s2l "_s") filename then
    let parts := py_split (s2l "_s") filename in
    match py_int (nth 1 parts []) with
    | Some n => Some (nth 0 parts [], s2l "D", Some n)
    | None => None
    end
  else Some (filename, s2l "H", None).

(** [mtype = TYPE_RESP if self.role == 'client' else TYPE_RQST] *)
Definition recv_type (role : pystr) : pystr :=
  if pystr_eqb role (s2l "client") then TYPE_RESP else TYPE_RQST.

(** [get]: [self.inbox_complete.pop(key, None)]; [None] = an exception. *)
Definition get (role : pystr) (st : inbox) (path : pystr) : option (option bytes * inbox) :=
  match parse_storage_path path with
  | None => None
  | Some (rid, _, _) =>
      let key := inbox_key rid (recv_type role) in
      Some (inbox_complete st !! key,
            mk_inbox (inbox_data st) (delete key (inbox_complete st))
                     (pending_requests st))
  end.

(** [head]: [key in self.inbox_complete]; the state is not touched. *)
Definition head (role : pystr) (st : inbox) (path : pystr) : option bool :=
  match parse_storage_path path with
  | None => None
  | Some (rid, _, _) =>
      Some (bool_decide (is_Some (inbox_complete st !! inbox_key rid (recv_type role))))
  end.

(** The inbox key addressed by a path. *)
Definition path_key (role path : pystr) : option pystr :=
  match parse_storage_path path with
  | None => None
  | Some (rid, _, _) => Some (inbox_key rid (recv_type role))
  end.

End Paths.
End Router.

(* ------------------------------------------------------------------ *)
(** ** Titles ([_make_title], [TITLE_RE], [_parse_title]) *)

Module Title.
Import Inbox.

Fixpoint uint_digits (u : Decimal.uint) : pystr :=
  match u with
  | Decimal.Nil => []
  | Decimal.D0 u => 48 :: uint_digits u | Decimal.D1 u => 49 :: uint_digits u
  | Decimal.D2 u => 50 :: uint_digits u | Decimal.D3 u => 51 :: uint_digits u
  | Decimal.D4 u => 52 :: uint_digits u | Decimal.D5 u => 53 :: uint_digits u
  | Decimal.D6 u => 54 :: uint_digits u | Decimal.D7 u => 55 :: uint_digits u
  | Decimal.D8 u => 56 :: uint_digits u | Decimal.D9 u => 57 :: uint_digits u
  end.

(** [f"{n:05d}"]: sign, then zeros up to width 5, then the digits. *)
Definition fmt05 (n : Z) : pystr :=
  let sign := if n <? 0 then [45] else [] in
  let ds := uint_digits (N.to_uint (Z.abs_N n)) in
  sign ++ repeat 48 (5 - length sign - length ds) ++ ds.

(** [_make_title]: [f"{dir}{request_id}:{chunk:05d}/{total:05d}:{msg_type}"] *)
Definition make_title (direction : Z) (request_id : pystr) (chunk total : Z)
    (msg_type : pystr) : pystr :=
  [direction] ++ request_id ++ [58] ++ fmt05 chunk ++ [47] ++ fmt05 total
  ++ [58] ++ msg_type.

Section Regex.
(** The Unicode classes of Python's [re] on [str] patterns: [udecimal c]
    is the value of a character matched by [\d] (category Nd, the digits
    [int()] accepts), [uword c] whether [\w] matches it. *)
Variable udecimal : Z -> option Z.
Variable uword : Z -> bool.

Definition take_n (n : nat) (l : pystr) : option (pystr * pystr) :=
  if Nat.ltb (length l) n then None else Some (firstn n l, skipn n l).

Definition expect (c : Z) (l : pystr) : option pystr :=
  match l with x :: l' => if x =? c then Some l' else None | [] => None end.

(** [int(group)] for a group of [\d] characters. *)
Fixpoint int_of_decimals (acc : Z) (l : pystr) : option Z :=
  match l with
  | [] => Some acc
  | c :: l' =>
      match udecimal c with
      | Some d => int_of_decimals (acc * 10 + d) l'
      | None => None
      end
  end.

(** [(\d{5})]: five characters, all decimal. *)
Definition digits5 (l : pystr) : option (Z * pystr) :=
  match take_n 5 l with
  | Some (g, rest) =>
      match int_of_decimals 0 g with Some v => Some (v, rest) | None => None end
  | None => None
  end.

(** [$] with [re.match]: end of string, or a final newline. *)
Definition at_end (l : pystr) : bool :=
  match l with [] => true | [c] => c =? 10 | _ => false end.

(** [TITLE_RE.match(title)] followed by the dict of [_parse_title]. The
    pattern has a fixed width, so it is matched position by position. *)
Definition parse_title (s : pystr) : option parsed :=
  match s with
  | [] => None
  | d :: r1 =>
    if negb ((d =? 60) || (d =? 62)) then None else
    match take_n 16 r1 with
    | None => None
    | Some (rid, r2) =>
      if existsb (fun c => c =? 10) rid then None else
      match expect 58 r2 with
      | None => None
      | Some r3 =>
        match digits5 r3 with
        | None => None
        | Some (chunk, r4) =>
          match expect 47 r4 with
          | None => None
          | Some r5 =>
            match digits5 r5 with
            | None => None
            | Some (total, r6) =>
              match expect 58 r6 with
              | None => None
              | Some r7 =>
                match take_n 4 r7 with
                | None => None
                | Some (ty, r8) =>
                  if forallb uword ty && at_end r8
                  then Some (mk_parsed d rid chunk total ty)
                  else None
                end
              end
            end
          end
        end
      end
    end
  end.
End Regex.

(** [\d] and [\w] restricted to ASCII; they agree with Python's classes
    on ASCII characters. *)
Definition ascii_decimal (c : Z) : option Z :=
  if (48 <=? c) && (c <=? 57) then Some (c - 48) else None.
Definition ascii_word (c : Z) : bool :=
  ((48 <=? c) && (c <=? 57)) || ((65 <=? c) && (c <=? 90)) ||
  ((97 <=? c) && (c <=? 122)) || (c =? 95).

(** An ASCII digit [0-9]. *)
Definition is_ascii_digit (c : Z) : bool := (48 <=? c) && (c <=? 57).

(** [int()] on a string of ASCII digits (no sign, no spaces). *)
Definition ascii_int (s : pystr) : option Z :=
  match s with [] => None | _ :: _ => int_of_decimals ascii_decimal 0 s end.

End Title.

(* ------------------------------------------------------------------ *)
(** ** Codec ([_encrypt_data], [_decrypt_data]) and the public [put] API *)

Module Codec.

Section Lib.
(** [base65536.encode] / [base65536.decode] ([None]: decode raises). *)
Variable b65536_encode : bytes -> pystr.
Variable b65536_decode : pystr -> option bytes.
(** [AESGCM(key).encrypt(nonce, data, None)] and [.decrypt] ([None]: the
    tag does not verify, [InvalidTag] is raised). *)
Variable aesgcm_encrypt : bytes -> bytes -> bytes -> bytes.
Variable aesgcm_decrypt : bytes -> bytes -> bytes -> option bytes.
(** [hashlib.sha256(...).digest()] and [str.encode()] (UTF-8). *)
Variable sha256 : bytes -> bytes.
Variable utf8_encode : pystr -> bytes.

(** [__init__]: the cipher key, when an [encryption_key] is configured. *)
Definition cipher_of_config (enc_key : pystr) : option bytes :=
  match enc_key with
  | [] => None
  | _ :: _ => Some (sha256 (utf8_encode enc_key))
  end.

(** [_encrypt_data]; [nonce] is the value of [os.urandom(12)]. *)
Definition encrypt_data (cipher : option bytes) (nonce data : bytes) : bytes :=
  match cipher with
  | None => data
  | Some key => nonce ++ aesgcm_encrypt key nonce data
  end.

(** [_decrypt_data]: [nonce = data[:12]], [ciphertext = data[12:]]. *)
Definition decrypt_data (cipher : option bytes) (data : bytes) : option bytes :=
  match cipher with
  | None => Some data
  | Some key => aesgcm_decrypt key (firstn 12 data) (skipn 12 data)
  end.

(** Encrypt then encode, as in [_queue_entry]. *)
Definition send_payload (cipher : option bytes) (nonce data : bytes) : pystr :=
  b65536_encode (encrypt_data cipher nonce data).

(** Decode then decrypt, as in [_process_batch]. *)
Definition recv_payload (cipher : option bytes) (d : pystr) : option bytes :=
  match b65536_decode d with
  | Some encrypted => decrypt_data cipher encrypted
  | None => None
  end.

(** The sending half of a [YaNotesStorage]. *)
Record storage := mk_storage {
  role : pystr; cipher : option bytes; batch_queue : list (pystr * pystr) }.

(** [self.send_direction = '>' if role == 'client' else '<'] *)
Definition send_direction (r : pystr) : Z :=
  if pystr_eqb r (s2l "client") then 62 else 60.

(** [_queue_entry] *)
Definition queue_entry (st : storage) (nonce : bytes) (request_id : pystr)
    (chunk total : Z) (msg_type : pystr) (data : bytes) : storage :=
  let title := Title.make_title (send_direction (role st)) request_id chunk total msg_type in
  let encoded := send_payload (cipher st) nonce data in
  mk_storage (role st) (cipher st) (batch_queue st ++ [(title, encoded)]).

(** [put_chunk] *)
Definition put_chunk (st : storage) (nonce : bytes) (request_id : pystr)
    (chunk_num : Z) (data : bytes) : storage :=
  queue_entry st nonce request_id chunk_num 0 TYPE_DATA data.

(** The [data: bytes | str] argument of [put]. *)
Inductive pydata := PyBytes (b : bytes) | PyStr (s : pystr).

(** [put]; [None] when [_parse_storage_path] raises. *)
Definition put (py_int : pystr -> option Z) (st : storage) (nonce : bytes)
    (path : pystr) (data : pydata) : option storage :=
  match Router.parse_storage_path py_int path with
  | None => None
  | Some (rid, _, _) =>
      let b := match data with PyBytes b => b | PyStr s => utf8_encode s end in
      let mtype := if pystr_eqb (role st) (s2l "server") then TYPE_RESP else TYPE_RQST in
      Some (queue_entry st nonce rid 1 1 mtype b)
  end.

(** A call of the producing API, with the nonce [os.urandom(12)] it draws. *)
Inductive api_call :=
| CallPutChunk (nonce : bytes) (request_id : pystr) (chunk_num : Z) (data : bytes)
| CallPut (nonce : bytes) (path : pystr) (data : pydata).

(** A call that raises leaves the storage as it was. *)
Definition apply_call (py_int : pystr -> option Z) (st : storage) (c : api_call) : storage :=
  match c with
  | CallPutChunk nonce rid n d => put_chunk st nonce rid n d
  | CallPut nonce path d => from_option id st (put py_int st nonce path d)
  end.

Definition run_calls (py_int : pystr -> option Z) (cs : list api_call) (st : storage) : storage :=
  fold_left (apply_call py_int) cs st.

End Lib.

(** Invariant 4 of the data model for a queued [(title, encoded)] pair:
    its title is built from fields with [total = 0] and type DATA, or
    [total >= 1] and type RQST or RESP. *)
Definition unit_ok (it : pystr * pystr) : Prop :=
  exists dir rid chunk total ty,
    it.1 = Title.make_title dir rid chunk total ty /\
    ((total = 0 /\ ty = TYPE_DATA) \/
     (1 <= total /\ (ty = TYPE_RQST \/ ty = TYPE_RESP))).

(** Stand-ins for the libraries that satisfy their round-trip contracts:
    one code point per byte, and a cipher that leaves data unchanged.
    They only instantiate the contracts in concrete examples. *)
Definition cp_encode (b : bytes) : pystr := map (fun x => Z.of_nat (Byte.to_nat x)) b.
Definition cp_decode (l : pystr) : option bytes :=
  mapM (fun z => Byte.of_nat (Z.to_nat z)) l.
Definition plain_encrypt (key nonce data : bytes) : bytes := data.
Definition plain_decrypt (key nonce data : bytes) : option bytes := Some data.

(** An encoder with base65536's output length: one code point for each
    pair of bytes and one for a trailing odd byte.  The code points stand
    in for the library's block table, which is not part of this
    repository; only lengths are used from it. *)
Fixpoint b65536_shape (b : bytes) : pystr :=
  match b with
  | [] => []
  | [x] => [5376 + Z.of_nat (Byte.to_nat x)]
  | x :: y :: r =>
      (65536 + 256 * Z.of_nat (Byte.to_nat y) + Z.of_nat (Byte.to_nat x)) :: b65536_shape r
  end.

End Codec.

(* ------------------------------------------------------------------ *)
(** ** Sender batching ([_sender_loop], [_fire_send]) *)

Module Sender.

(** What the sender loop observes: a unit drained from [batch_queue], or
    the timeout check after the queue ran empty ([timeout_due] is
    [(time.time() - last_send) >= BATCH_TIMEOUT]). *)
Inductive sender_event :=
| SItem (title encoded : pystr)
| STick (timeout_due : bool).

Record sender := mk_sender {
  batch : list (pystr * pystr);
  batch_chars : Z;
  dispatched : list (list (pystr * pystr)) }.

Definition init_sender : sender := mk_sender [] 0 [].

(** [item_chars = len(title) + len(encoded) + 2] *)
Definition item_chars (it : pystr * pystr) : Z :=
  Z.of_nat (length it.1) + Z.of_nat (length it.2) + 2.

(** [_fire_send]: an empty batch is not sent; otherwise the batch goes to
    a note (after the blocking wait for a free one). *)
Definition fire_send (items : list (pystr * pystr))
    (d : list (list (pystr * pystr))) : list (list (pystr * pystr)) :=
  match items with [] => d | _ :: _ => d ++ [items] end.

(** [do_send]: [batch_text = '\n'.join(f"{t}\t{d}" for t, d in items_copy)] *)
Definition snippet (items : list (pystr * pystr)) : pystr :=
  py_join [10] (map (fun it => it.1 ++ [9] ++ it.2) items).

Definition nonempty {A} (l : list A) : bool := match l with [] => false | _ => true end.

Definition sender_step (s : sender) (e : sender_event) : sender :=
  match e with
  | SItem t enc =>
      let ic := item_chars (t, enc) in
      let s := if nonempty (batch s) && (MAX_SNIPPET_CHARS <? batch_chars s + ic)
               then mk_sender [] 0 (fire_send (batch s) (dispatched s))
               else s in
      mk_sender (batch s ++ [(t, enc)]) (batch_chars s + ic) (dispatched s)
  | STick due =>
      if nonempty (batch s) && due
      then mk_sender [] 0 (fire_send (batch s) (dispatched s))
      else s
  end.

Definition run_sender (evs : list sender_event) : sender :=
  fold_left sender_step evs init_sender.

(** The characters a batch is accounted for. *)
Definition batch_total (items : list (pystr * pystr)) : Z :=
  fold_right Z.add 0 (map item_chars items).

End Sender.

(* ------------------------------------------------------------------ *)
(** ** PATCH with retries ([_patch_note]) and [do_send] *)

Module Patch.

(** The outcome of one [self.session.patch(...)] call: a response with a
    status code, or an exception (network error, timeout). *)
Inductive response := HttpStatus (code : Z) | NetError.

Definition max_retries : nat := 3.

(** [r.status_code in (200, 201)] *)
Definition is_success (code : Z) : bool := (code =? 200) || (code =? 201).

(** [r.status_code in (500, 502, 503, 504)] *)
Definition is_retry_status (code : Z) : bool :=
  (code =? 500) || (code =? 502) || (code =? 503) || (code =? 504).

(** [0.5 * (2 ** attempt)] seconds, in milliseconds; the code adds
    [random.uniform(0, 0.2)] seconds of jitter to it. *)
Definition base_delay_ms (attempt : nat) : Z := 500 * 2 ^ Z.of_nat attempt.

(** [for attempt in range(max_retries + 1)]; [r attempt] is the outcome
    of the attempt.  Returns the result, the number of PATCH calls made
    and the base delays slept between them. *)
Fixpoint patch_loop (r : nat -> response) (attempt left : nat) : bool * nat * list Z :=
  match left with
  | O => (false, O, [])
  | S left' =>
      let retry := Nat.ltb attempt max_retries in
      match r attempt with
      | HttpStatus code =>
          if is_success code then (true, 1%nat, [])
          else if is_retry_status code && retry then
            let '(ok, n, ds) := patch_loop r (S attempt) left' in
            (ok, S n, base_delay_ms attempt :: ds)
          else (false, 1%nat, [])
      | NetError =>
          if retry then
            let '(ok, n, ds) := patch_loop r (S attempt) left' in
            (ok, S n, base_delay_ms attempt :: ds)
          else (false, 1%nat, [])
      end
  end.

Definition patch_note (r : nat -> response) : bool * nat * list Z :=
  patch_loop r O (S max_retries).

(** Outcomes that make [_patch_note] return [True]. *)
Definition success_resp (x : response) : bool :=
  match x with HttpStatus code => is_success code | NetError => false end.

(** Outcomes after which [_patch_note] tries again (while attempts remain). *)
Definition retryable (x : response) : bool :=
  match x with HttpStatus code => is_retry_status code | NetError => true end.

(** The state [do_send] can reach: the note pool and the batch queue. *)
Record sys := mk_sys { sys_pool : NotePool.pool; sys_queue : list (pystr * pystr) }.

(** [do_send] for the note [note_id] acquired by [_fire_send]: on
    failure the note is released; the batch queue is not touched. *)
Definition do_send (r : nat -> response) (note_id : pystr) (s : sys) : sys :=
  let '(ok, _, _) := patch_note r in
  if ok then s
  else mk_sys (NotePool.release_note note_id (sys_pool s)) (sys_queue s).

End Patch.

(* ------------------------------------------------------------------ *)
(** ** Tunnel loops ([TunnelHandler.handle], [ServerTunnelHandler._tunnel_loop]) *)

Module Tunnel.

(** The local socket in one iteration: not readable ([select] timed
    out), [recv] returned [d] ([[]] is EOF), or [recv] raised. *)
Inductive read_obs := RIdle | RData (d : bytes) | RFail.

(** What one iteration observes from the outside world: the socket, the
    clock ([idle_due]: [idle_time >= chunk_idle_timeout]; [timeout]:
    [time.time() - last_activity_time > tunnel_idle_timeout]), the
    storage ([head_chunk] and [get_chunk] of the expected chunk) and
    whether [sendall] succeeded. *)
Record obs := mk_obs {
  o_read : read_obs; o_idle_due : bool; o_head : bool;
  o_get : option bytes; o_send_ok : bool; o_timeout : bool }.

(** Calls on the storage and the socket, in order. *)
Inductive eff :=
| EPut (n : Z) (d : bytes)     (* storage.put_chunk(request_id, n, d) *)
| EHead (n : Z)                (* storage.head_chunk(request_id, n) *)
| EGet (n : Z)                 (* storage.get_chunk(request_id, n) *)
| EDeliver (n : Z) (d : bytes). (* sendall of chunk n succeeded *)

(** [buffer_out], the sent counter, the received counter, the calls made. *)
Record tstate := mk_t { buf : bytes; sent : Z; recvd : Z; trace : list eff }.

Definition init_t : tstate := mk_t [] 0 0 [].

(** [chunk_id_sent += 1; self._send_chunk(request_id, chunk_id_sent, buffer)] *)
Definition send_buf (s : tstate) : tstate :=
  mk_t (buf s) (sent s + 1) (recvd s) (trace s ++ [EPut (sent s + 1) (buf s)]).

Definition set_buf (b : bytes) (s : tstate) : tstate :=
  mk_t b (sent s) (recvd s) (trace s).

(** New data [d] (non-empty) read from the socket. *)
Definition on_data (chunk_size : Z) (d : bytes) (s : tstate) : tstate :=
  if chunk_size <? Z.of_nat (length (buf s)) + Z.of_nat (length d) then
    let s := if 0 <? Z.of_nat (length (buf s)) then send_buf s else s in
    set_buf d s
  else set_buf (buf s ++ d) s.

(** The idle flush. *)
Definition idle_flush (o : obs) (s : tstate) : tstate :=
  if (0 <? Z.of_nat (length (buf s))) && o_idle_due o
  then set_buf [] (send_buf s) else s.

(** The peer side: [head_chunk(expected)], then [get_chunk(expected)],
    then [sendall]; the counter advances only after [sendall]. *)
Definition peer_step (o : obs) (s : tstate) : tstate :=
  let expected := recvd s + 1 in
  let s := mk_t (buf s) (sent s) (recvd s) (trace s ++ [EHead expected]) in
  if o_head o then
    let s := mk_t (buf s) (sent s) (recvd s) (trace s ++ [EGet expected]) in
    match o_get o with
    | Some ((_ :: _) as d) =>
        if o_send_ok o
        then mk_t (buf s) (sent s) expected (trace s ++ [EDeliver expected d])
        else s (* sendall raised; the exception is logged *)
    | _ => s
    end
  else s.

(** After the loop: [if len(buffer) > 0:] flush it as the final chunk. *)
Definition final_flush (s : tstate) : tstate :=
  if 0 <? Z.of_nat (length (buf s)) then send_buf s else s.

(** One iteration: [inl] continues the loop, [inr] breaks out of it. *)
Definition client_iter (chunk_size : Z) (o : obs) (s : tstate) : tstate + tstate :=
  match o_read o with
  | RFail | RData [] => inr s
  | _ =>
      let s := match o_read o with RData d => on_data chunk_size d s | _ => s end in
      let s := idle_flush o s in
      let s := peer_step o s in
      if o_timeout o then inr s else inl s
  end.

Definition server_iter (chunk_size : Z) (o : obs) (s : tstate) : tstate + tstate :=
  let s := peer_step o s in
  match o_read o with
  | RFail | RData [] => inr s
  | _ =>
      let s := match o_read o with RData d => on_data chunk_size d s | _ => s end in
      let s := idle_flush o s in
      if o_timeout o then inr s else inl s
  end.

(** Runs a loop over the observations of its iterations; a loop that
    breaks performs the final flush.  [true] when the loop ended. *)
Fixpoint run_loop (iter : obs -> tstate -> tstate + tstate)
    (os : list obs) (s : tstate) : tstate * bool :=
  match os with
  | [] => (s, false)
  | o :: os' =>
      match iter o s with
      | inl s' => run_loop iter os' s'
      | inr s' => (final_flush s', true)
      end
  end.

Definition run_client (chunk_size : Z) (os : list obs) : tstate * bool :=
  run_loop (client_iter chunk_size) os init_t.

Definition run_server (chunk_size : Z) (os : list obs) : tstate * bool :=
  run_loop (server_iter chunk_size) os init_t.

(** The chunk numbers passed to [put_chunk], in order. *)
Definition put_indices (tr : list eff) : list Z :=
  flat_map (fun e => match e with EPut n _ => [n] | _ => [] end) tr.

(** The chunk numbers delivered to the socket, in order. *)
Definition delivered_indices (tr : list eff) : list Z :=
  flat_map (fun e => match e with EDeliver n _ => [n] | _ => [] end) tr.

(** Every [head_chunk]/[get_chunk] asks for the chunk after the last one
    delivered; deliveries go up by one.  Returns the last delivered. *)
Fixpoint consumer_scan (r : Z) (tr : list eff) : option Z :=
  match tr with
  | [] => Some r
  | (EHead n | EGet n) :: tr' => if n =? r + 1 then consumer_scan r tr' else None
  | EDeliver n _ :: tr' => if n =? r + 1 then consumer_scan n tr' else None
  | EPut _ _ :: tr' => consumer_scan r tr'
  end.

(** The numbering invariant of a loop state: the chunks put so far are
    [1..sent], the chunks delivered are [1..recvd], and every request to
    the storage asked for the chunk after the last delivered one. *)
Definition numbering_ok (s : tstate) : Prop :=
  0 <= sent s /\ 0 <= recvd s /\
  put_indices (trace s) = seqZ 1 (sent s) /\
  delivered_indices (trace s) = seqZ 1 (recvd s) /\
  consumer_scan 0 (trace s) = Some (recvd s).

End Tunnel.

(* ------------------------------------------------------------------ *)
(** ** The rest of the inbox API ([get_chunk], [head_chunk],
    [_cleanup_stale], [get_pending_request]) *)

Module InboxOps.
Import Inbox.

(** [get_chunk]: pops [inbox_data[key][chunk_num]] and deletes the key
    once its dict is empty; [None] when the key or the chunk is absent. *)
Definition get_chunk (request_id : pystr) (chunk_num : Z) (st : inbox)
    : option ival * inbox :=
  let key := inbox_key request_id TYPE_DATA in
  match inbox_data st !! key with
  | Some chunks =>
      match chunks !! chunk_num with
      | Some v =>
          let chunks' := delete chunk_num chunks in
          let d := if Nat.eqb (size chunks') 0 then delete key (inbox_data st)
                   else <[key := chunks']> (inbox_data st) in
          (Some v, mk_inbox d (inbox_complete st) (pending_requests st))
      | None => (None, st)
      end
  | None => (None, st)
  end.

(** [head_chunk]: [key in self.inbox_data and chunk_num in self.inbox_data[key]] *)
Definition head_chunk (request_id : pystr) (chunk_num : Z) (st : inbox) : bool :=
  match inbox_data st !! inbox_key request_id TYPE_DATA with
  | Some chunks => bool_decide (is_Some (chunks !! chunk_num))
  | None => false
  end.

(** [STALE_TIMEOUT_MS = 10 * 60 * 1000] *)
Definition STALE_TIMEOUT_MS : Z := 10 * 60 * 1000.

Section Stale.
(** Python's [int()] on a string; [None] when it raises [ValueError]. *)
Variable py_int : pystr -> option Z.

(** The test of [_cleanup_stale] for one key: [request_id = key.split(':')[0]],
    [ts_ms = int(request_id[:13])], [now_ms - ts_ms > STALE_TIMEOUT_MS];
    a [ValueError] keeps the key. *)
Definition is_stale (now_ms : Z) (key : pystr) : bool :=
  match py_int (firstn 13 (nth 0 (py_split [58] key) [])) with
  | Some ts_ms => STALE_TIMEOUT_MS <? now_ms - ts_ms
  | None => false
  end.

(** [_cleanup_stale]: pops every stale key of [inbox_data];
    [now_ms = int(time.time() * 1000)]. *)
Definition cleanup_stale (now_ms : Z) (st : inbox) : inbox :=
  mk_inbox (filter (fun kv => is_stale now_ms kv.1 = false) (inbox_data st))
           (inbox_complete st) (pending_requests st).
End Stale.

(** [get_pending_request]: [pending_requests.get_nowait()], [None] on
    [queue.Empty]. *)
Definition get_pending_request (st : inbox) : option (pystr * bytes) * inbox :=
  match pending_requests st with
  | [] => (None, st)
  | r :: q => (Some r, mk_inbox (inbox_data st) (inbox_complete st) q)
  end.

End InboxOps.

(* ------------------------------------------------------------------ *)
(** ** Receiving a batch ([_process_batch]) *)

Module Receiver.
Import Inbox.

(** [line.split('\t', 1)] on a line that contains the separator. *)
Fixpoint split_once (c : Z) (l : pystr) : option (pystr * pystr) :=
  match l with
  | [] => None
  | x :: l' =>
      if x =? c then Some ([], l')
      else match split_once c l' with
           | Some (a, b) => Some (x :: a, b)
           | None => None
           end
  end.

(** [self.recv_direction = '<' if role == 'client' else '>'] *)
Definition recv_direction (role : pystr) : Z :=
  if pystr_eqb role (s2l "client") then 60 else 62.

Section Process.
Variable udecimal : Z -> option Z.
Variable uword : Z -> bool.
Variable b65536_decode : pystr -> option bytes.
Variable aesgcm_decrypt : bytes -> bytes -> bytes -> option bytes.

(** One line of the loop of [_process_batch]; a line whose decoding or
    decryption raises is counted as an error and skipped. *)
Definition process_line (role : pystr) (cipher : option bytes) (st : inbox)
    (line : pystr) : inbox :=
  match line with
  | [] => st
  | _ :: _ =>
    match split_once 9 line with
    | None => st
    | Some (t, d) =>
      match Title.parse_title udecimal uword t with
      | None => st
      | Some p =>
        if negb (p_direction p =? recv_direction role) then st
        else match Codec.recv_payload b65536_decode aesgcm_decrypt cipher d with
             | Some data => store_entry p data st
             | None => st
             end
      end
    end
  end.

(** [_process_batch(note_id, title, snippet)]; the flag tells whether the
    note is cleared afterwards ([_clear_async]). *)
Definition process_batch (role : pystr) (cipher : option bytes)
    (title snippet : pystr) (st : inbox) : inbox * bool :=
  match title with
  | [] => (st, false)
  | c :: _ =>
    if negb (c =? recv_direction role) then (st, false)
    else match snippet with
         | [] => (st, false)
         | _ :: _ => (fold_left (process_line role cipher) (py_split [10] snippet) st, true)
         end
  end.
End Process.

End Receiver.

(* ------------------------------------------------------------------ *)
(** ** Request ids ([generate_request_id] of [client/proxy.py] and
    [client/socks5.py]) *)

Module RequestId.

(** [str(n)] for an [int]. *)
Definition py_str_int (n : Z) : pystr :=
  (if n <? 0 then [45] else []) ++ Title.uint_digits (N.to_uint (Z.abs_N n)).

(** [f"{int(time.time() * 1000)}{uuid.uuid4().hex[:3]}"]: [now_ms] is the
    millisecond clock, [hex] the 32 lowercase hex digits of the uuid. *)
Definition generate_request_id (now_ms : Z) (hex : pystr) : pystr :=
  py_str_int now_ms ++ firstn 3 hex.

(** The characters of [uuid4().hex]: [0-9a-f]. *)
Definition is_hex_char (c : Z) : bool :=
  ((48 <=? c) && (c <=? 57)) || ((97 <=? c) && (c <=? 102)).

End RequestId.

(* ------------------------------------------------------------------ *)
(** ** Note changes seen by the polling loop ([_polling_loop]) *)

Module Polling.

(** One entry of [item['changes']]: its [change_type], [record_id] and
    the [(field_id, value['string'])] pairs of its own [changes]. *)
Record change := mk_change {
  change_type : pystr; record_id : pystr; fields : list (pystr * pystr) }.

Section Ids.
Variable udecimal : Z -> option Z.

Definition decimal_group (g : pystr) : bool :=
  match g with [] => false | _ :: _ => forallb (fun c => bool_decide (is_Some (udecimal c))) g end.

(** [NOTE_ID_RE.match(record_id)] for [^\d+_\d+_\d+$]: three non-empty
    groups of [\d] separated by [_], before the end or a final newline. *)
Definition note_id_match (s : pystr) : bool :=
  let core := match rev s with 10 :: r => rev r | _ => s end in
  match py_split [95] core with
  | [a; b; c] => decimal_group a && decimal_group b && decimal_group c
  | _ => false
  end.

(** The [title] and [snippet] of a change: the last value given to each. *)
Definition note_fields (fs : list (pystr * pystr)) : pystr * pystr :=
  fold_left (fun '(t, sn) '(fid, v) =>
               if pystr_eqb fid (s2l "title") then (v, sn)
               else if pystr_eqb fid (s2l "snippet") then (t, v)
               else (t, sn)) fs ([], []).

(** What the loop does with a change: release a note of the write pool
    that the peer cleared, or submit [_process_batch] for a filled note
    of the read pool. *)
Inductive action := ARelease (nid : pystr) | AProcess (nid title snippet : pystr).

Definition handle_change (write_pool read_pool : list pystr) (c : change) : list action :=
  if negb (pystr_eqb (change_type c) (s2l "update")) then [] else
  if negb (note_id_match (record_id c)) then [] else
  let '(title, snippet) := note_fields (fields c) in
  match title, snippet with
  | [], [] =>
      if bool_decide (record_id c ∈ write_pool) then [ARelease (record_id c)] else []
  | _, _ =>
      if negb (bool_decide (record_id c ∈ read_pool)) then []
      else match title, snippet with
           | _ :: _, _ :: _ => [AProcess (record_id c) title snippet]
           | _, _ => []
           end
  end.

(** [for item in deltas.get('items', []): for change in item.get('changes', []):] *)
Definition handle_deltas (write_pool read_pool : list pystr) (items : list (list change))
    : list action :=
  flat_map (flat_map (handle_change write_pool read_pool)) items.
End Ids.

(** The releases performed on the note pool. *)
Definition apply_releases (acts : list action) (p : NotePool.pool) : NotePool.pool :=
  fold_left (fun p a => match a with
                        | ARelease nid => NotePool.release_note nid p
                        | AProcess _ _ _ => p end) acts p.

(** A release of a write-pool note, or a batch to process from a
    read-pool note with a non-empty title and snippet. *)
Definition action_ok (wp rp : list pystr) (a : action) : Prop :=
  match a with
  | ARelease nid => nid ∈ wp
  | AProcess nid t sn => nid ∈ rp /\ t <> [] /\ sn <> []
  end.

End Polling.

(* ------------------------------------------------------------------ *)
(** ** The SOCKS5 tunnel loop ([Socks5Handler._tunnel_data]) and the
    bytes the tunnel loops read *)

Module Socks.
Import Tunnel.

(** One iteration: [recv] raising [BlockingIOError] is [RIdle]; the
    buffer is flushed when it has at least [chunk_size] bytes or the idle
    time has passed; then the server side is polled. *)
Definition socks_iter (chunk_size : Z) (o : obs) (s : tstate) : tstate + tstate :=
  match o_read o with
  | RFail | RData [] => inr s
  | _ =>
      let s := match o_read o with RData d => set_buf (buf s ++ d) s | _ => s end in
      let s := if (0 <? Z.of_nat (length (buf s))) &&
                  ((chunk_size <=? Z.of_nat (length (buf s))) || o_idle_due o)
               then set_buf [] (send_buf s) else s in
      let s := peer_step o s in
      if o_timeout o then inr s else inl s
  end.

Definition run_socks (chunk_size : Z) (os : list obs) : tstate * bool :=
  run_loop (socks_iter chunk_size) os init_t.

(** The payloads passed to [put_chunk], in order. *)
Definition put_payloads (tr : list eff) : list bytes :=
  flat_map (fun e => match e with EPut _ d => [d] | _ => [] end) tr.

(** The bytes the loop reads from its socket before it stops: a loop
    stops on EOF or a failed [recv] (nothing read) or at the idle
    timeout (after handling the data of that iteration). *)
Fixpoint loop_reads (os : list obs) : bytes :=
  match os with
  | [] => []
  | o :: os' =>
      match o_read o with
      | RFail | RData [] => []
      | RData d => d ++ (if o_timeout o then [] else loop_reads os')
      | RIdle => if o_timeout o then [] else loop_reads os'
      end
  end.

(** The bytes read in one iteration, and whether the loop goes on after
    it (no EOF, no failed [recv], no idle timeout). *)
Definition obs_bytes (o : obs) : bytes :=
  match o_read o with RData d => d | _ => [] end.
Definition obs_continues (o : obs) : bool :=
  match o_read o with RFail | RData [] => false | _ => negb (o_timeout o) end.

(** The bytes a loop has taken in so far: those passed to [put_chunk],
    then the buffer. *)
Definition forwarded (s : tstate) : bytes := concat (put_payloads (trace s)) ++ buf s.

(** The chunks put so far are non-empty and at most [limit] bytes long,
    and the buffer holds at most [buf_limit] bytes. *)
Definition sizes_ok (limit buf_limit : Z) (s : tstate) : Prop :=
  Forall (fun d => d <> [] /\ Z.of_nat (length d) <= limit) (put_payloads (trace s)) /\
  Z.of_nat (length (buf s)) <= buf_limit.

End Socks.

(* ------------------------------------------------------------------ *)
(** ** A code-point codec without control characters *)

Module Standins.

(** A stand-in for [base65536.encode]/[decode] with the property the
    newline format of a batch relies on: one code point [256 + b] per
    byte, never a tab or a newline. It only instantiates the library's
    contracts in concrete examples. *)
Definition hi_encode (b : bytes) : pystr :=
  map (fun x => 256 + Z.of_nat (Byte.to_nat x)) b.
Definition hi_decode (l : pystr) : option bytes :=
  mapM (fun z => Byte.of_nat (Z.to_nat (z - 256))) l.

End Standins.

(* ================================================================== *)
(** * Properties *)

(* ------------------------------------------------------------------ *)
(** ** Note pool *)

Module NotePoolFacts.
Import NotePool.

Lemma get_free_note_as_spec nid p p' :
  get_free_note_as nid p = Some (nid, p') ->
  nid ∈ free_notes p /\
  p' = mk_pool (free_notes p ∖ {[nid]}) ({[nid]} ∪ busy_notes p).
Proof.
  unfold get_free_note_as. case_bool_decide; [|discriminate].
  intros Heq. injection Heq as <-. auto.
Qed.

Lemma partitioned_init wp : partitioned wp (init_pool wp).
Proof. unfold partitioned, init_pool; simpl. split; set_solver. Qed.

Lemma partitioned_step wp p r p' :
  partitioned wp p -> pool_step wp p r p' -> partitioned wp p'.
Proof.
  intros [Hdis Hcov] Hs. inversion Hs as [nid ? ? Hget| |nid ? Hin]; subst.
  - apply get_free_note_as_spec in Hget as [Hn ->].
    unfold partitioned; simpl. split.
    + set_solver.
    + rewrite <- Hcov. apply set_eq. intros x.
      rewrite !elem_of_union, elem_of_difference, elem_of_singleton.
      destruct (decide (x = nid)); subst; naive_solver.
  - split; assumption.
  - unfold partitioned, release_note; simpl. split.
    + set_solver.
    + rewrite <- Hcov. apply set_eq. intros x.
      rewrite !elem_of_union, elem_of_difference, elem_of_singleton.
      split; [|destruct (decide (x = nid)); naive_solver].
      intros [[->|Hx]|[Hx _]]; [|auto|auto].
      assert (nid ∈ free_notes p ∪ busy_notes p) as Hu
        by (rewrite Hcov; by apply elem_of_list_to_set).
      apply elem_of_union in Hu. naive_solver.
Qed.

Lemma reachable_partitioned wp p : reachable wp p -> partitioned wp p.
Proof.
  induction 1; [apply partitioned_init | eauto using partitioned_step].
Qed.

(** C7: starting from [free = write_pool], [busy = ∅], every sequence
    of [_get_free_note] and [_release_note(id)] with [id] in the write
    pool keeps [free ∩ busy = ∅] and [free ∪ busy = write_pool];
    [_get_free_note] moves exactly one free id to [busy] (or returns
    [None] on an empty [free], changing nothing); [_release_note] moves
    an id from [busy] to [free], and repeating it changes nothing. *)
Theorem note_pool_partition (wp : list pystr) :
  (forall p, reachable wp p ->
     free_notes p ∩ busy_notes p = ∅ /\
     free_notes p ∪ busy_notes p = list_to_set wp) /\
  (forall p nid p', pool_step wp p (Some nid) p' ->
     nid ∈ free_notes p /\
     free_notes p' = free_notes p ∖ {[nid]} /\
     busy_notes p' = {[nid]} ∪ busy_notes p) /\
  (forall p, free_notes p = ∅ -> pool_step wp p None p) /\
  (forall p nid, nid ∈ busy_notes p ->
     free_notes (release_note nid p) = {[nid]} ∪ free_notes p /\
     busy_notes (release_note nid p) = busy_notes p ∖ {[nid]}) /\
  (forall p nid, release_note nid (release_note nid p) = release_note nid p).
Proof.
  split; [exact (reachable_partitioned wp)|].
  split.
  { intros p nid p' Hs. inversion Hs as [? ? ? Hget| |]; subst.
    apply get_free_note_as_spec in Hget as [Hn ->]. auto. }
  split; [intros p H; by constructor|].
  split; [intros p nid _; auto|].
  intros p nid. unfold release_note; simpl. f_equal; set_solver.
Qed.

End NotePoolFacts.

(* ------------------------------------------------------------------ *)
(** ** One-shot receive *)

Module RouterFacts.
Import Inbox Router.

(** C10: a [get] that returns a message removes it: a following [get]
    for the same path returns [None] and [head] returns [False]; every
    other [inbox_complete] entry, [inbox_data] and [pending_requests]
    are unchanged.  Any [get] (also one that finds nothing) returns the
    entry of its own key, leaves that key absent, and leaves every other
    [inbox_complete] entry, [inbox_data] and [pending_requests] as they
    were; [head] only reads the entry of its key (it returns a boolean
    and no new state). *)
Theorem get_is_destructive (py_int : pystr -> option Z) (role : pystr)
    (st : inbox) (path : pystr) :
  (forall (st' : inbox) (v : bytes),
    get py_int role st path = Some (Some v, st') ->
    exists key,
      path_key py_int role path = Some key /\
      inbox_complete st !! key = Some v /\
      get py_int role st' path = Some (None, st') /\
      head py_int role st' path = Some false /\
      (forall k, k <> key -> inbox_complete st' !! k = inbox_complete st !! k) /\
      inbox_data st' = inbox_data st /\
      pending_requests st' = pending_requests st) /\
  (forall (st' : inbox) (r : option bytes),
    get py_int role st path = Some (r, st') ->
    exists key,
      path_key py_int role path = Some key /\
      r = inbox_complete st !! key /\
      inbox_complete st' !! key = None /\
      head py_int role st' path = Some false /\
      (forall k, k <> key -> inbox_complete st' !! k = inbox_complete st !! k) /\
      inbox_data st' = inbox_data st /\
      pending_requests st' = pending_requests st) /\
  (forall key, path_key py_int role path = Some key ->
     head py_int role st path = Some (bool_decide (is_Some (inbox_complete st !! key)))).
Proof.
  unfold get, head, path_key.
  destruct (parse_storage_path py_int path) as [[[rid ?] ?]|].
  2:{ split; [intros ? ? H; discriminate|]. split; [intros ? ? H; discriminate|].
      intros ? H; discriminate. }
  split; [|split].
  - intros st' v Heq. injection Heq as Hv <-.
    eexists. split; [reflexivity|]. split; [exact Hv|]. simpl.
    rewrite lookup_delete_eq, delete_delete_eq.
    split; [reflexivity|]. split.
    { f_equal; try (apply bool_decide_eq_false_2; intros [? H]; discriminate). }
    split; [|auto].
    intros k Hk. apply lookup_delete_ne. congruence.
  - intros st' r Heq. injection Heq as Hr <-.
    eexists. split; [reflexivity|]. split; [symmetry; exact Hr|]. simpl.
    rewrite lookup_delete_eq.
    split; [reflexivity|]. split.
    { f_equal; apply bool_decide_eq_false_2; intros [? H]; discriminate. }
    split; [|auto].
    intros k Hk. apply lookup_delete_ne. congruence.
  - intros key Hk. injection Hk as <-. reflexivity.
Qed.

Lemma get_is_destructive_witness :
  let st := mk_inbox ∅ {[inbox_key (s2l "1710000000000a1b") TYPE_RESP := [x41]]} [] in
  get Title.ascii_int (s2l "client") st (s2l "inbox/1710000000000a1b.json")
    = Some (Some [x41], mk_inbox ∅ ∅ []) /\
  get Title.ascii_int (s2l "client") st (s2l "inbox/1710000000000fff.json")
    = Some (None, st) /\
  (exists key,
    path_key Title.ascii_int (s2l "client") (s2l "inbox/1710000000000a1b.json") = Some key /\
    inbox_complete st !! key = Some [x41] /\
    get Title.ascii_int (s2l "client") (mk_inbox ∅ ∅ []) (s2l "inbox/1710000000000a1b.json")
      = Some (None, mk_inbox ∅ ∅ []) /\
    head Title.ascii_int (s2l "client") (mk_inbox ∅ ∅ []) (s2l "inbox/1710000000000a1b.json")
      = Some false /\
    (forall k, k <> key -> inbox_complete (mk_inbox ∅ ∅ []) !! k = inbox_complete st !! k) /\
    inbox_data (mk_inbox ∅ ∅ []) = inbox_data st /\
    pending_requests (mk_inbox ∅ ∅ []) = pending_requests st) /\
  (exists key,
    path_key Title.ascii_int (s2l "client") (s2l "inbox/1710000000000fff.json") = Some key /\
    None = inbox_complete st !! key /\
    inbox_complete st !! key = None /\
    head Title.ascii_int (s2l "client") st (s2l "inbox/1710000000000fff.json") = Some false /\
    (forall k, k <> key -> inbox_complete st !! k = inbox_complete st !! k) /\
    inbox_data st = inbox_data st /\
    pending_requests st = pending_requests st).
Proof.
  intros st.
  assert (Hg : get Title.ascii_int (s2l "client") st (s2l "inbox/1710000000000a1b.json")
                 = Some (Some [x41], mk_inbox ∅ ∅ [])) by (vm_compute; reflexivity).
  assert (Hn : get Title.ascii_int (s2l "client") st (s2l "inbox/1710000000000fff.json")
                 = Some (None, st)) by (vm_compute; reflexivity).
  split; [exact Hg|]. split; [exact Hn|]. split.
  - exact (proj1 (get_is_destructive Title.ascii_int (s2l "client") st
                    (s2l "inbox/1710000000000a1b.json")) (mk_inbox ∅ ∅ []) [x41] Hg).
  - exact (proj1 (proj2 (get_is_destructive Title.ascii_int (s2l "client") st
                    (s2l "inbox/1710000000000fff.json"))) st None Hn).
Defined.

End RouterFacts.

(* ------------------------------------------------------------------ *)
(** ** Reassembly of multi-chunk messages *)

Module InboxFacts.
Import Inbox.

(** The test of [_store_entry] holds exactly when the stored chunk
    indices are [1..total] and nothing else. *)
Lemma all_chunks_present_dom (chunks : gmap Z ival) (total : Z) :
  0 <= total ->
  all_chunks_present chunks total = true <->
  dom chunks = (list_to_set (seqZ 1 total) : gset Z).
Proof.
  intros Ht. unfold all_chunks_present.
  rewrite andb_true_iff, Z.eqb_eq, forallb_forall.
  split.
  - intros [Hsz Hall]. symmetry. apply set_subseteq_size_eq.
    + intros i Hi. apply elem_of_list_to_set, list_elem_of_In in Hi.
      apply elem_of_dom. exact (bool_decide_eq_true_1 _ (Hall i Hi)).
    + rewrite size_dom, size_list_to_set by apply NoDup_seqZ.
      rewrite length_seqZ. lia.
  - intros Hdom. split.
    + rewrite <- size_dom, Hdom, size_list_to_set by apply NoDup_seqZ.
      rewrite length_seqZ. lia.
    + intros i Hi. apply bool_decide_eq_true_2, elem_of_dom.
      rewrite Hdom. apply elem_of_list_to_set, list_elem_of_In. exact Hi.
Qed.

Lemma chunks_in_order_cons (chunks : gmap Z ival) (total : Z) :
  0 < total -> exists x xs, chunks_in_order chunks total = x :: xs.
Proof.
  intros Ht. unfold chunks_in_order. rewrite seqZ_cons by exact Ht.
  simpl. eauto.
Qed.

(** C2 (amended): for an RQST or RESP unit with [total > 1],
    [_store_entry] records [(total, payload)] at index [chunk] under
    [request_id:type].  When the indices stored under that key are then
    exactly [1..total], it drops them, stores the concatenation of the
    payloads of chunks [1..total] in index order under
    [complete[request_id:type]] and, for RQST, appends
    [(request_id, body)] to [pending_requests].  Otherwise neither
    [complete] nor [pending_requests] changes. *)
Theorem store_entry_multi_chunk (st : inbox) (p : parsed) (data : bytes) :
  p_type p = TYPE_RQST \/ p_type p = TYPE_RESP ->
  1 < p_total p ->
  multi_chunk_effect st p data.
Proof.
  intros Hty Htot. unfold multi_chunk_effect. cbv zeta.
  assert (Hnd : pystr_eqb (p_type p) TYPE_DATA = false)
    by (destruct Hty as [-> | ->]; reflexivity).
  assert (Hle : (p_total p <=? 1) = false) by (apply Z.leb_gt; lia).
  unfold store_entry. cbv zeta. rewrite Hnd, Hle.
  set (chunks := <[p_chunk p := ITot (p_total p) data]>
                   (from_option id ∅ (inbox_data st !! inbox_key (p_request_id p) (p_type p)))).
  destruct (all_chunks_present chunks (p_total p)) eqn:Hp.
  - apply all_chunks_present_dom in Hp; [|lia].
    destruct (chunks_in_order_cons chunks (p_total p)) as [x [xs Hxs]]; [lia|].
    rewrite Hxs. split.
    + intros _. simpl. auto.
    + intros Hne. contradiction.
  - split.
    + intros Hd. apply all_chunks_present_dom in Hd; [congruence|lia].
    + intros _. simpl. auto.
Qed.

Lemma store_entry_multi_chunk_witness :
  let p := mk_parsed 62 (s2l "1710000000000a1b") 2 2 TYPE_RQST in
  let st := store_entry (mk_parsed 62 (s2l "1710000000000a1b") 1 2 TYPE_RQST)
              [x41] empty_inbox in
  (p_type p = TYPE_RQST \/ p_type p = TYPE_RESP) /\ 1 < p_total p /\
  multi_chunk_effect st p [x42] /\
  inbox_complete (store_entry p [x42] st)
    !! inbox_key (s2l "1710000000000a1b") TYPE_RQST = Some [x41; x42].
Proof.
  intros p st.
  split; [left; reflexivity|]. split; [simpl; lia|]. split.
  - apply store_entry_multi_chunk; [left; reflexivity | simpl; lia].
  - vm_compute. reflexivity.
Defined.

(** C2 as stated fails: a unit with a chunk index outside [1..total]
    (here [00003/00002], which [TITLE_RE] accepts) stays under the key,
    so after chunks 1 and 2 of a two-chunk RQST have been stored no
    complete entry is published. *)
Lemma store_entry_stray_index_blocks :
  let rid := s2l "1710000000000a1b" in
  let st := fold_left (fun s '(c, d) => store_entry (mk_parsed 62 rid c 2 TYPE_RQST) d s)
              [(3, [x43]); (1, [x41]); (2, [x42])] empty_inbox in
  Title.parse_title Title.ascii_decimal Title.ascii_word
      (s2l ">1710000000000a1b:00003/00002:RQST")
    = Some (mk_parsed 62 rid 3 2 TYPE_RQST) /\
  (exists chunks, inbox_data st !! inbox_key rid TYPE_RQST = Some chunks /\
     is_Some (chunks !! 1) /\ is_Some (chunks !! 2)) /\
  inbox_complete st !! inbox_key rid TYPE_RQST = None /\
  pending_requests st = [].
Proof.
  vm_compute. split; [reflexivity|]. split; [|split; reflexivity].
  eexists. split; [reflexivity|]. split; eexists; reflexivity.
Qed.

End InboxFacts.

(* ------------------------------------------------------------------ *)
(** ** Parsed titles *)

Module TitleFacts.
Import Inbox Title.

Section Bounds.
Variable udecimal : Z -> option Z.
Variable uword : Z -> bool.

Lemma take_n_spec n l a b :
  take_n n l = Some (a, b) -> length a = n /\ l = a ++ b.
Proof.
  unfold take_n. destruct (Nat.ltb (length l) n) eqn:Hlt; [discriminate|].
  intros Heq. injection Heq as <- <-. apply Nat.ltb_ge in Hlt.
  split; [rewrite length_firstn; lia | symmetry; apply firstn_skipn].
Qed.

Lemma int_of_decimals_range (Hdec : forall c v, udecimal c = Some v -> 0 <= v <= 9)
    (l : pystr) : forall acc v,
  0 <= acc -> int_of_decimals udecimal acc l = Some v ->
  acc * 10 ^ Z.of_nat (length l) <= v < (acc + 1) * 10 ^ Z.of_nat (length l).
Proof.
  induction l as [|c l IH]; intros acc v Hacc Hv; simpl in *.
  - injection Hv as <-. lia.
  - destruct (udecimal c) as [d|] eqn:Hd; [|discriminate].
    apply Hdec in Hd.
    pose proof (Z.pow_pos_nonneg 10 (Z.of_nat (length l)) ltac:(lia) ltac:(lia)) as Hp.
    specialize (IH (acc * 10 + d) v ltac:(lia) Hv).
    rewrite Nat2Z.inj_succ, Z.pow_succ_r by lia. nia.
Qed.

Lemma digits5_range (Hdec : forall c v, udecimal c = Some v -> 0 <= v <= 9) l v rest :
  digits5 udecimal l = Some (v, rest) -> 0 <= v <= 99999.
Proof.
  unfold digits5. destruct (take_n 5 l) as [[g r]|] eqn:Ht; [|discriminate].
  apply take_n_spec in Ht as [Hlen _].
  destruct (int_of_decimals udecimal 0 g) as [w|] eqn:Hw; [|discriminate].
  intros Heq. injection Heq as <- _.
  apply int_of_decimals_range in Hw; [|exact Hdec|lia].
  rewrite Hlen in Hw. simpl in Hw. lia.
Qed.

(** C8 (amended): every title accepted by [_parse_title] has direction
    [<] or [>], a 16-character request id, [0 <= chunk <= 99999],
    [0 <= total <= 99999] and a 4-character type.  [\d] matches only
    characters whose decimal value is a digit 0..9. *)
Theorem parse_title_bounds
    (Hdec : forall c v, udecimal c = Some v -> 0 <= v <= 9)
    (s : pystr) (p : parsed) :
  parse_title udecimal uword s = Some p ->
  (p_direction p = 60 \/ p_direction p = 62) /\
  length (p_request_id p) = 16%nat /\
  0 <= p_chunk p <= 99999 /\
  0 <= p_total p <= 99999 /\
  length (p_type p) = 4%nat.
Proof.
  unfold parse_title. destruct s as [|d r1]; [discriminate|].
  destruct (negb ((d =? 60) || (d =? 62))) eqn:Hd; [discriminate|].
  destruct (take_n 16 r1) as [[rid r2]|] eqn:H16; [|discriminate].
  destruct (existsb _ rid); [discriminate|].
  destruct (expect 58 r2) as [r3|]; [|discriminate].
  destruct (digits5 udecimal r3) as [[chunk r4]|] eqn:Hc; [|discriminate].
  destruct (expect 47 r4) as [r5|]; [|discriminate].
  destruct (digits5 udecimal r5) as [[total r6]|] eqn:Ht; [|discriminate].
  destruct (expect 58 r6) as [r7|]; [|discriminate].
  destruct (take_n 4 r7) as [[ty r8]|] eqn:H4; [|discriminate].
  destruct (forallb uword ty && at_end r8); [|discriminate].
  intros Heq. injection Heq as <-. simpl.
  apply take_n_spec in H16 as [H16 _]. apply take_n_spec in H4 as [H4 _].
  apply digits5_range in Hc; [|exact Hdec]. apply digits5_range in Ht; [|exact Hdec].
  apply negb_false_iff, orb_true_iff in Hd.
  rewrite !Z.eqb_eq in Hd. auto.
Qed.

End Bounds.

Lemma ascii_decimal_range c v : ascii_decimal c = Some v -> 0 <= v <= 9.
Proof.
  unfold ascii_decimal. destruct ((48 <=? c) && (c <=? 57)) eqn:H; [|discriminate].
  apply andb_true_iff in H as [H1 H2]. apply Z.leb_le in H1, H2.
  intros Heq. injection Heq as <-. lia.
Qed.

Lemma parse_title_bounds_witness :
  let s := make_title 62 (s2l "17310452918c4a1x") 3 0 TYPE_DATA in
  parse_title ascii_decimal ascii_word s
    = Some (mk_parsed 62 (s2l "17310452918c4a1x") 3 0 TYPE_DATA) /\
  (62 = 60 \/ 62 = 62) /\ length (s2l "17310452918c4a1x") = 16%nat /\
  0 <= 3 <= 99999 /\ 0 <= 0 <= 99999 /\ length TYPE_DATA = 4%nat.
Proof.
  intros s.
  assert (Hp : parse_title ascii_decimal ascii_word s
                 = Some (mk_parsed 62 (s2l "17310452918c4a1x") 3 0 TYPE_DATA))
    by (vm_compute; reflexivity).
  split; [exact Hp|].
  exact (parse_title_bounds ascii_decimal ascii_word ascii_decimal_range s _ Hp).
Defined.

(** C8 as stated fails: [(\d{5})] accepts [00000], so a parsed title can
    carry [chunk = 0]. *)
Lemma parse_title_chunk_zero :
  parse_title ascii_decimal ascii_word (s2l ">0123456789abcdef:00000/00000:DATA")
    = Some (mk_parsed 62 (s2l "0123456789abcdef") 0 0 TYPE_DATA).
Proof. vm_compute. reflexivity. Qed.

End TitleFacts.

(* ------------------------------------------------------------------ *)
(** ** Codec round trip and the producing API *)

Module CodecFacts.
Import Codec.

Section Lib.
Variable b65536_encode : bytes -> pystr.
Variable b65536_decode : pystr -> option bytes.
Variable aesgcm_encrypt : bytes -> bytes -> bytes -> bytes.
Variable aesgcm_decrypt : bytes -> bytes -> bytes -> option bytes.
Variable utf8_encode : pystr -> bytes.
Variable py_int : pystr -> option Z.

(** C1: with base65536 decoding a left inverse of encoding and AES-GCM
    decryption a left inverse of encryption under the same key and
    12-byte nonce (the libraries' contracts),
    [_decrypt_data(_encrypt_data(b)) = b] for a fresh 12-byte nonce, and
    the receive pipeline (decode then decrypt) undoes the send pipeline
    (encrypt then encode) on every payload, with or without a key. *)
Theorem codec_roundtrip
    (Hb65536 : forall b, b65536_decode (b65536_encode b) = Some b)
    (Hgcm : forall key nonce d, length nonce = 12%nat ->
       aesgcm_decrypt key nonce (aesgcm_encrypt key nonce d) = Some d)
    (cipher : option bytes) (nonce b : bytes) :
  length nonce = 12%nat ->
  decrypt_data aesgcm_decrypt cipher (encrypt_data aesgcm_encrypt cipher nonce b) = Some b /\
  recv_payload b65536_decode aesgcm_decrypt cipher
    (send_payload b65536_encode aesgcm_encrypt cipher nonce b) = Some b.
Proof.
  intros Hn.
  assert (Hd : decrypt_data aesgcm_decrypt cipher
                 (encrypt_data aesgcm_encrypt cipher nonce b) = Some b).
  { destruct cipher as [key|]; simpl; [|reflexivity].
    rewrite firstn_app, skipn_app, Hn, Nat.sub_diag.
    rewrite (firstn_all2 nonce), (skipn_all2 nonce) by lia.
    simpl. rewrite app_nil_r. apply Hgcm. exact Hn. }
  split; [exact Hd|].
  unfold recv_payload, send_payload. rewrite Hb65536. exact Hd.
Qed.

(** C9: [put_chunk] queues a DATA unit with [total = 0]; a [put] that
    returns queues one unit with [chunk = 1], [total = 1], of type RQST
    for role [client] and RESP for role [server]. *)
Lemma put_chunk_unit st nonce rid n data :
  batch_queue (put_chunk b65536_encode aesgcm_encrypt st nonce rid n data) =
  batch_queue st ++
    [(Title.make_title (send_direction (role st)) rid n 0 TYPE_DATA,
      send_payload b65536_encode aesgcm_encrypt (cipher st) nonce data)].
Proof. reflexivity. Qed.

Lemma put_unit st nonce path data st' :
  put b65536_encode aesgcm_encrypt utf8_encode py_int st nonce path data = Some st' ->
  exists rid b,
    batch_queue st' = batch_queue st ++
      [(Title.make_title (send_direction (role st)) rid 1 1
          (if pystr_eqb (role st) (s2l "server") then TYPE_RESP else TYPE_RQST),
        send_payload b65536_encode aesgcm_encrypt (cipher st) nonce b)].
Proof.
  unfold put. destruct (Router.parse_storage_path py_int path) as [[[rid ?] ?]|];
    [|discriminate].
  intros Heq. injection Heq as <-. eauto.
Qed.

Lemma apply_call_ok st c :
  Forall unit_ok (batch_queue st) ->
  Forall unit_ok (batch_queue
    (apply_call b65536_encode aesgcm_encrypt utf8_encode py_int st c)).
Proof.
  intros Hall. destruct c as [nonce rid n d|nonce path d]; unfold apply_call.
  - rewrite put_chunk_unit. apply Forall_app. split; [exact Hall|].
    constructor; [|constructor].
    exists (send_direction (role st)), rid, n, 0, TYPE_DATA. auto.
  - destruct (put b65536_encode aesgcm_encrypt utf8_encode py_int st nonce path d)
      as [st'|] eqn:Hput; simpl; [|exact Hall].
    apply put_unit in Hput as [rid [b ->]].
    apply Forall_app. split; [exact Hall|]. constructor; [|constructor].
    eexists _, rid, 1, 1, _. split; [reflexivity|].
    right. split; [lia|]. destruct (pystr_eqb _ _); auto.
Qed.

(** C9: every unit the producing API queues satisfies the invariant:
    [put_chunk] emits DATA with [total = 0]; [put] emits [chunk = 1],
    [total = 1] with type RQST ([client]) or RESP ([server]).  So
    [total = 0] implies DATA and [total >= 1] implies RQST or RESP. *)
Theorem produced_units_typed (r : pystr) (cph : option bytes) (cs : list api_call) :
  Forall unit_ok
    (batch_queue (run_calls b65536_encode aesgcm_encrypt utf8_encode py_int cs
                    (mk_storage r cph []))) /\
  (forall st nonce rid n data,
     exists title enc,
       batch_queue (put_chunk b65536_encode aesgcm_encrypt st nonce rid n data)
         = batch_queue st ++ [(title, enc)] /\
       title = Title.make_title (send_direction (role st)) rid n 0 TYPE_DATA) /\
  (forall st nonce path data st',
     put b65536_encode aesgcm_encrypt utf8_encode py_int st nonce path data = Some st' ->
     exists rid title enc,
       batch_queue st' = batch_queue st ++ [(title, enc)] /\
       (role st = s2l "client" ->
          title = Title.make_title (send_direction (role st)) rid 1 1 TYPE_RQST) /\
       (role st = s2l "server" ->
          title = Title.make_title (send_direction (role st)) rid 1 1 TYPE_RESP)).
Proof.
  split; [|split].
  - unfold run_calls.
    assert (H0 : forall st, Forall unit_ok (batch_queue st) ->
              Forall unit_ok (batch_queue (fold_left
                (apply_call b65536_encode aesgcm_encrypt utf8_encode py_int) cs st))).
    { induction cs as [|c cs IH]; intros st Hst; simpl; [exact Hst|].
      apply IH. apply apply_call_ok. exact Hst. }
    apply H0. constructor.
  - intros. do 2 eexists. split; [apply put_chunk_unit | reflexivity].
  - intros st nonce path data st' Hput.
    apply put_unit in Hput as [rid [b Hq]].
    exists rid. do 2 eexists. split; [exact Hq|].
    split; intros Hr; rewrite Hr; reflexivity.
Qed.

End Lib.

Lemma cp_roundtrip b : cp_decode (cp_encode b) = Some b.
Proof.
  induction b as [|x b IH]; [reflexivity|].
  unfold cp_decode, cp_encode in *. simpl.
  rewrite Nat2Z.id, Byte.of_to_nat. simpl. rewrite IH. reflexivity.
Qed.

Lemma plain_roundtrip key nonce d :
  length nonce = 12%nat -> plain_decrypt key nonce (plain_encrypt key nonce d) = Some d.
Proof. reflexivity. Qed.

Lemma codec_roundtrip_witness :
  length [x00; x01; x02; x03; x04; x05; x06; x07; x08; x09; x0a; x0b] = 12%nat /\
  decrypt_data plain_decrypt (Some [x2a])
    (encrypt_data plain_encrypt (Some [x2a])
       [x00; x01; x02; x03; x04; x05; x06; x07; x08; x09; x0a; x0b] [x41; x42])
    = Some [x41; x42] /\
  recv_payload cp_decode plain_decrypt (Some [x2a])
    (send_payload cp_encode plain_encrypt (Some [x2a])
       [x00; x01; x02; x03; x04; x05; x06; x07; x08; x09; x0a; x0b] [x41; x42])
    = Some [x41; x42].
Proof.
  split; [reflexivity|].
  apply (codec_roundtrip cp_encode cp_decode plain_encrypt plain_decrypt
           cp_roundtrip plain_roundtrip); reflexivity.
Defined.

End CodecFacts.

(* ------------------------------------------------------------------ *)
(** ** [put] has no size check *)

Module PutFacts.
Import Codec.

Lemma b65536_shape_length (b : bytes) :
  length (b65536_shape b) = Nat.div2 (S (length b)).
Proof.
  revert b. fix IH 1. intros [|x [|y r]]; [reflexivity|reflexivity|].
  simpl. rewrite IH. reflexivity.
Qed.

(** Four million and two zero bytes encode to two million and one code
    points. *)
Lemma big_payload_length :
  Z.of_nat (length (b65536_shape (repeat x00 (Z.to_nat 4000002)))) = 2000001.
Proof.
  rewrite b65536_shape_length, repeat_length, Nat.div2_div, Nat2Z.inj_div,
    Nat2Z.inj_succ, Z2Nat.id by lia.
  reflexivity.
Qed.

Lemma title_length :
  length (Title.make_title 62 (s2l "1710000000000a1b") 1 1 TYPE_RQST) = 34%nat.
Proof. reflexivity. Qed.

(** C5 counterexample: a client [put] of 4,000,002 bytes (no key, so the
    payload is not encrypted) succeeds and queues one unit whose encoded
    part alone has 2,000,001 code points, above [MAX_SNIPPET_CHARS]. *)
Lemma put_accepts_oversized_unit :
  exists st',
    put b65536_shape plain_encrypt (fun _ => []) Title.ascii_int
      (mk_storage (s2l "client") None []) [] (s2l "outbox/1710000000000a1b.json")
      (PyBytes (repeat x00 (Z.to_nat 4000002))) = Some st' /\
    exists t e, batch_queue st' = [(t, e)] /\ MAX_SNIPPET_CHARS < Z.of_nat (length e).
Proof.
  eexists. split; [reflexivity|].
  exists (Title.make_title 62 (s2l "1710000000000a1b") 1 1 TYPE_RQST),
    (b65536_shape (repeat x00 (Z.to_nat 4000002))).
  split; [reflexivity|].
  rewrite big_payload_length. unfold MAX_SNIPPET_CHARS. lia.
Qed.

End PutFacts.

(* ------------------------------------------------------------------ *)
(** ** Sender batching and the snippet budget *)

Module SenderFacts.
Import Sender.

Lemma batch_total_nil : batch_total [] = 0.
Proof. reflexivity. Qed.

Lemma batch_total_cons it b : batch_total (it :: b) = item_chars it + batch_total b.
Proof. reflexivity. Qed.

Lemma batch_total_app a b : batch_total (a ++ b) = batch_total a + batch_total b.
Proof.
  induction a as [|x a IH]; simpl app.
  - rewrite batch_total_nil. lia.
  - rewrite !batch_total_cons, IH. lia.
Qed.

Lemma snippet_cons x y b :
  snippet (x :: y :: b) = (x.1 ++ [9] ++ x.2) ++ [10] ++ snippet (y :: b).
Proof. reflexivity. Qed.

(** The joined snippet is one character shorter than the accounted
    total: each line is [title + 1 + encoded], joined by newlines. *)
Lemma snippet_length b :
  b <> [] -> Z.of_nat (length (snippet b)) = batch_total b - 1.
Proof.
  induction b as [|x b IH]; intros Hb; [congruence|].
  destruct b as [|y b].
  - change (snippet [x]) with (x.1 ++ [9] ++ x.2).
    rewrite batch_total_cons, batch_total_nil. unfold item_chars.
    rewrite !length_app. simpl length. lia.
  - rewrite snippet_cons, batch_total_cons, !length_app, !Nat2Z.inj_add, IH
      by discriminate.
    unfold item_chars. simpl length. lia.
Qed.

Lemma sender_step_inv s e :
  batch_chars s = batch_total (batch s) /\
  ((2 <= length (batch s))%nat -> batch_chars s <= MAX_SNIPPET_CHARS) /\
  Forall (fun b => b <> [] /\ ((2 <= length b)%nat -> batch_total b <= MAX_SNIPPET_CHARS))
    (dispatched s) ->
  let s' := sender_step s e in
  batch_chars s' = batch_total (batch s') /\
  ((2 <= length (batch s'))%nat -> batch_chars s' <= MAX_SNIPPET_CHARS) /\
  Forall (fun b => b <> [] /\ ((2 <= length b)%nat -> batch_total b <= MAX_SNIPPET_CHARS))
    (dispatched s').
Proof.
  destruct s as [bt ch d]; simpl. intros [Hc [H2 Hd]].
  destruct e as [t enc|due]; simpl.
  - destruct bt as [|x bt]; simpl.
    + rewrite Hc, batch_total_cons, batch_total_nil. simpl length.
      repeat split; [lia|lia|assumption].
    + destruct (MAX_SNIPPET_CHARS <? ch + item_chars (t, enc)) eqn:E; simpl.
      * rewrite batch_total_cons, batch_total_nil. simpl length.
        repeat split; [lia|lia|].
        apply Forall_app. split; [assumption|].
        constructor; [|constructor]. split; [discriminate|].
        intros Hl. rewrite <- Hc. apply H2. exact Hl.
      * apply Z.ltb_ge in E.
        rewrite app_comm_cons, batch_total_app, <- Hc, batch_total_cons, batch_total_nil.
        repeat split; [lia|lia|assumption].
  - destruct bt as [|x bt]; [simpl; auto|].
    destruct due; simpl; [|auto].
    split; [reflexivity|]. split; [intros Hl; simpl in Hl; lia|].
    apply Forall_app. split; [assumption|].
    constructor; [|constructor]. split; [discriminate|].
    intros Hl. rewrite <- Hc. apply H2. exact Hl.
Qed.

Lemma run_sender_inv evs :
  Forall (fun b => b <> [] /\ ((2 <= length b)%nat -> batch_total b <= MAX_SNIPPET_CHARS))
    (dispatched (run_sender evs)).
Proof.
  unfold run_sender.
  assert (Hgen : forall s,
    batch_chars s = batch_total (batch s) /\
    ((2 <= length (batch s))%nat -> batch_chars s <= MAX_SNIPPET_CHARS) /\
    Forall (fun b => b <> [] /\ ((2 <= length b)%nat -> batch_total b <= MAX_SNIPPET_CHARS))
      (dispatched s) ->
    Forall (fun b => b <> [] /\ ((2 <= length b)%nat -> batch_total b <= MAX_SNIPPET_CHARS))
      (dispatched (fold_left sender_step evs s))).
  { induction evs as [|e evs IH]; intros s Hs; simpl; [apply Hs|].
    apply IH. apply (sender_step_inv s e Hs). }
  apply Hgen. simpl. repeat split; [lia|constructor].
Qed.

(** Every unit of a dispatched batch was drained from the queue. *)
Lemma run_sender_items (P : pystr * pystr -> Prop) evs :
  Forall (fun e => match e with SItem t x => P (t, x) | STick _ => True end) evs ->
  Forall (Forall P) (dispatched (run_sender evs)).
Proof.
  unfold run_sender.
  assert (Hgen : forall s, Forall P (batch s) -> Forall (Forall P) (dispatched s) ->
    Forall (fun e => match e with SItem t x => P (t, x) | STick _ => True end) evs ->
    Forall (Forall P) (dispatched (fold_left sender_step evs s))).
  { induction evs as [|e evs IH]; intros s Hb Hd He; simpl; [exact Hd|].
    inversion He as [|e' evs' He1 He2]; subst.
    destruct s as [bt ch d]; simpl in *.
    destruct e as [t enc|due]; simpl in *.
    - destruct (nonempty bt && (MAX_SNIPPET_CHARS <? ch + item_chars (t, enc))) eqn:E;
        simpl; apply IH; auto.
      + constructor; auto.
      + destruct bt; simpl; [assumption|]. apply Forall_app; auto.
      + apply Forall_app; auto.
    - destruct (nonempty bt && due); simpl; apply IH; auto.
      destruct bt; simpl; [assumption|]. apply Forall_app; auto. }
  intros He. apply Hgen; simpl; auto.
Qed.

(** C4 (amended): every batch the sender loop dispatches is non-empty and
    its snippet ([newline-join of title + tab + encoded]) has exactly
    [accounted total - 1] characters; a batch of two or more units has
    [accounted total <= MAX_SNIPPET_CHARS], so its snippet has at most
    [MAX_SNIPPET_CHARS - 1] characters.  A unit is still dispatched alone
    whatever its size, so the budget holds for all snippets when every
    drained unit has [len(title) + len(encoded) + 2 <= MAX_SNIPPET_CHARS + 1]. *)
Theorem sender_snippet_budget evs :
  Forall (fun b => b <> [] /\
            Z.of_nat (length (snippet b)) = batch_total b - 1 /\
            ((2 <= length b)%nat -> Z.of_nat (length (snippet b)) <= MAX_SNIPPET_CHARS - 1))
    (dispatched (run_sender evs)) /\
  (Forall (fun e => match e with
                    | SItem t x => item_chars (t, x) <= MAX_SNIPPET_CHARS + 1
                    | STick _ => True end) evs ->
   Forall (fun b => Z.of_nat (length (snippet b)) <= MAX_SNIPPET_CHARS)
     (dispatched (run_sender evs))).
Proof.
  pose proof (run_sender_inv evs) as Hinv. split.
  - eapply Forall_impl; [exact Hinv|]. intros b [Hne H2].
    rewrite snippet_length by exact Hne. repeat split; auto. intros Hl.
    specialize (H2 Hl). lia.
  - intros He.
    pose proof (run_sender_items (fun it => item_chars it <= MAX_SNIPPET_CHARS + 1) evs He)
      as Hit.
    rewrite Forall_forall in Hinv, Hit |- *. intros b Hin.
    destruct (Hinv b Hin) as [Hne H2]. pose proof (Hit b Hin) as Hb.
    rewrite snippet_length by exact Hne.
    destruct b as [|x [|y b]]; [congruence| |].
    + inversion Hb; subst. rewrite batch_total_cons, batch_total_nil. lia.
    + assert (Hl : (2 <= length (x :: y :: b))%nat) by (simpl; lia).
      specialize (H2 Hl). lia.
Qed.

(** C4 counterexample: a 34-character title with 2,000,001 encoded code
    points is drained into the empty batch (the overflow check needs a
    non-empty batch) and dispatched alone at the next timeout; its snippet
    has 2,000,036 characters. *)
Lemma sender_dispatches_oversized_snippet :
  dispatched (run_sender
    [SItem (Title.make_title 62 (s2l "1710000000000a1b") 1 1 TYPE_RQST)
           (Codec.b65536_shape (repeat x00 (Z.to_nat 4000002)));
     STick true])
  = [[(Title.make_title 62 (s2l "1710000000000a1b") 1 1 TYPE_RQST,
       Codec.b65536_shape (repeat x00 (Z.to_nat 4000002)))]] /\
  MAX_SNIPPET_CHARS <
  Z.of_nat (length (snippet
    [(Title.make_title 62 (s2l "1710000000000a1b") 1 1 TYPE_RQST,
      Codec.b65536_shape (repeat x00 (Z.to_nat 4000002)))])).
Proof.
  split; [reflexivity|].
  rewrite snippet_length by discriminate.
  rewrite batch_total_cons, batch_total_nil. unfold item_chars. cbn [fst snd].
  rewrite PutFacts.big_payload_length, PutFacts.title_length.
  unfold MAX_SNIPPET_CHARS. lia.
Qed.

End SenderFacts.

(* ------------------------------------------------------------------ *)
(** ** [put] and the sender: no size check on either side *)

Module PutSendFacts.
Import Codec Sender.

Lemma item_chars_pos it : 2 <= item_chars it.
Proof. unfold item_chars. lia. Qed.

Lemma batch_total_nonneg b : 0 <= batch_total b.
Proof.
  induction b as [|x b IH]; [reflexivity|].
  rewrite SenderFacts.batch_total_cons. pose proof (item_chars_pos x). lia.
Qed.

Lemma run_sender_chars evs :
  batch_chars (run_sender evs) = batch_total (batch (run_sender evs)).
Proof.
  unfold run_sender.
  assert (Hgen : forall s,
    batch_chars s = batch_total (batch s) /\
    ((2 <= length (batch s))%nat -> batch_chars s <= MAX_SNIPPET_CHARS) /\
    Forall (fun b => b <> [] /\ ((2 <= length b)%nat -> batch_total b <= MAX_SNIPPET_CHARS))
      (dispatched s) ->
    batch_chars (fold_left sender_step evs s) =
      batch_total (batch (fold_left sender_step evs s))).
  { induction evs as [|e evs IH]; intros s Hs; cbn [fold_left]; [apply Hs|].
    apply IH. apply (SenderFacts.sender_step_inv s e Hs). }
  apply Hgen. cbn. repeat split; [lia|constructor].
Qed.

(** A unit worth more than [MAX_SNIPPET_CHARS] on its own closes the
    batch before it and stays alone in the new one. *)
Lemma sender_big_item evs t e :
  MAX_SNIPPET_CHARS < item_chars (t, e) ->
  exists D, sender_step (run_sender evs) (SItem t e) = mk_sender [(t, e)] (item_chars (t, e)) D.
Proof.
  intros Hbig. pose proof (run_sender_chars evs) as Hc.
  destruct (run_sender evs) as [bt ch d]. cbn [batch batch_chars] in Hc.
  pose proof (batch_total_nonneg bt).
  unfold sender_step. cbn [batch batch_chars dispatched].
  destruct bt as [|x bt]; cbn [nonempty andb].
  - rewrite Hc. eexists. reflexivity.
  - replace (MAX_SNIPPET_CHARS <? ch + item_chars (t, e)) with true
      by (symmetry; apply Z.ltb_lt; lia).
    eexists. reflexivity.
Qed.

(** C5 (amended): [put] performs no size check: when
    [_parse_storage_path] raises, [put] raises; otherwise it appends
    exactly one unit [(title, encoded)] to [batch_queue], with chunk 1,
    total 1, type RESP for the server role and RQST otherwise, and the
    base65536 encoding of the (possibly encrypted) payload, whatever its
    length.  When [encoded] alone is longer than [MAX_SNIPPET_CHARS], the
    sender loop that drains this unit puts it alone in its batch, and the
    next timeout or the next unit dispatches that batch, whose snippet
    is longer than [MAX_SNIPPET_CHARS]. *)
Theorem put_has_no_size_check
    (b65536_encode : bytes -> pystr) (aesgcm_encrypt : bytes -> bytes -> bytes -> bytes)
    (utf8_encode : pystr -> bytes) (py_int : pystr -> option Z)
    (st : storage) (nonce : bytes) (path : pystr) (data : pydata) :
  (Router.parse_storage_path py_int path = None ->
     put b65536_encode aesgcm_encrypt utf8_encode py_int st nonce path data = None) /\
  (forall rid k n, Router.parse_storage_path py_int path = Some (rid, k, n) ->
     let b := match data with PyBytes b => b | PyStr s => utf8_encode s end in
     let mtype := if pystr_eqb (role st) (s2l "server") then TYPE_RESP else TYPE_RQST in
     let t := Title.make_title (send_direction (role st)) rid 1 1 mtype in
     let e := b65536_encode (encrypt_data aesgcm_encrypt (cipher st) nonce b) in
     exists st',
       put b65536_encode aesgcm_encrypt utf8_encode py_int st nonce path data = Some st' /\
       role st' = role st /\ cipher st' = cipher st /\
       batch_queue st' = batch_queue st ++ [(t, e)] /\
       (MAX_SNIPPET_CHARS < Z.of_nat (length e) ->
        forall evs e', (e' = STick true \/ exists t' x', e' = SItem t' x') ->
          let s1 := sender_step (run_sender evs) (SItem t e) in
          batch s1 = [(t, e)] /\
          dispatched (sender_step s1 e') = dispatched s1 ++ [[(t, e)]] /\
          MAX_SNIPPET_CHARS < Z.of_nat (length (snippet [(t, e)])))).
Proof.
  split.
  - intros Hp. unfold put. rewrite Hp. reflexivity.
  - intros rid k n Hp b mtype t e. eexists.
    split; [unfold put; rewrite Hp; reflexivity|].
    split; [reflexivity|]. split; [reflexivity|]. split; [reflexivity|].
    intros Hbig evs e' He' s1.
    assert (Hic : MAX_SNIPPET_CHARS < item_chars (t, e))
      by (unfold item_chars; cbn [fst snd]; lia).
    destruct (sender_big_item evs t e Hic) as [D HD]. subst s1. rewrite HD.
    cbn [batch dispatched]. split; [reflexivity|]. split.
    + destruct He' as [->|(t' & x' & ->)]; unfold sender_step; cbn [batch batch_chars dispatched nonempty andb].
      * reflexivity.
      * replace (MAX_SNIPPET_CHARS <? item_chars (t, e) + item_chars (t', x')) with true
          by (symmetry; apply Z.ltb_lt; pose proof (item_chars_pos (t', x')); lia).
        reflexivity.
    + change (snippet [(t, e)]) with (t ++ [9] ++ e).
      rewrite !length_app, !Nat2Z.inj_add. lia.
Qed.

Lemma put_has_no_size_check_witness :
  let t := Title.make_title 62 (s2l "1710000000000a1b") 1 1 TYPE_RQST in
  let e := b65536_shape (repeat x00 (Z.to_nat 4000002)) in
  Router.parse_storage_path Title.ascii_int (s2l "outbox/1710000000000a1b.json")
    = Some (s2l "1710000000000a1b", s2l "H", None) /\
  MAX_SNIPPET_CHARS < Z.of_nat (length e) /\
  dispatched (sender_step (sender_step (run_sender []) (SItem t e)) (STick true)) = [[(t, e)]] /\
  MAX_SNIPPET_CHARS < Z.of_nat (length (snippet [(t, e)])).
Proof.
  intros t e.
  assert (Hp : Router.parse_storage_path Title.ascii_int (s2l "outbox/1710000000000a1b.json")
                 = Some (s2l "1710000000000a1b", s2l "H", None)) by reflexivity.
  assert (Hbig : MAX_SNIPPET_CHARS < Z.of_nat (length e))
    by (unfold e; rewrite PutFacts.big_payload_length; unfold MAX_SNIPPET_CHARS; lia).
  split; [exact Hp|]. split; [exact Hbig|].
  destruct (proj2 (put_has_no_size_check b65536_shape plain_encrypt (fun _ => []) Title.ascii_int
                     (mk_storage (s2l "client") None []) [] (s2l "outbox/1710000000000a1b.json")
                     (PyBytes (repeat x00 (Z.to_nat 4000002))))
              _ _ _ Hp) as (st' & _ & _ & _ & _ & Hsend).
  destruct (Hsend Hbig [] (STick true) (or_introl eq_refl)) as (_ & Hd & Hs).
  split; [exact Hd|exact Hs].
Defined.

End PutSendFacts.

(* ------------------------------------------------------------------ *)
(** ** The retry policy of [_patch_note] *)

Module PatchFacts.
Import Patch.

Lemma success_not_retryable x :
  success_resp x = true -> retryable x = false.
Proof.
  destruct x as [code|]; simpl; [|discriminate].
  unfold is_success, is_retry_status. intros H.
  apply orb_true_iff in H as [H|H]; apply Z.eqb_eq in H; subst; reflexivity.
Qed.

Lemma patch_loop_spec r left :
  forall attempt, (attempt + left = 4)%nat -> (1 <= left)%nat ->
  match patch_loop r attempt left with
  | (ok, n, ds) =>
      (1 <= n <= left)%nat /\
      ds = map base_delay_ms (seq attempt (n - 1)) /\
      (forall a, (attempt <= a < attempt + n - 1)%nat ->
         success_resp (r a) = false /\ retryable (r a) = true) /\
      ok = success_resp (r (attempt + n - 1)%nat) /\
      (success_resp (r (attempt + n - 1)%nat) = true \/
       retryable (r (attempt + n - 1)%nat) = false \/ (attempt + n = 4)%nat)
  end.
Proof.
  induction left as [|left IH]; intros attempt Hsum Hl; [lia|].
  simpl patch_loop.
  destruct (Nat.ltb_spec attempt max_retries) as [Hlt|Hge].
  - unfold max_retries in Hlt.
    pose proof (IH (S attempt) ltac:(lia) ltac:(lia)) as HI.
    destruct (patch_loop r (S attempt) left) as [[ok n] ds].
    destruct HI as (Hn & Hds & Hbefore & Hok & Hstop).
    assert (Hidx : (S attempt + n - 1 = attempt + S n - 1)%nat) by lia.
    rewrite Hidx in Hok, Hstop.
    assert (Hseq : map base_delay_ms (seq attempt (S n - 1)) =
                   base_delay_ms attempt :: ds).
    { destruct n as [|n']; [lia|]. rewrite Hds.
      replace (S (S n') - 1)%nat with (S (S n' - 1)) by lia. reflexivity. }
    assert (Hall : success_resp (r attempt) = false -> retryable (r attempt) = true ->
      (forall a, (attempt <= a < attempt + S n - 1)%nat ->
         success_resp (r a) = false /\ retryable (r a) = true)).
    { intros Hs Hr a Ha. destruct (Nat.eq_dec a attempt) as [->|Hne]; [auto|].
      apply Hbefore. lia. }
    destruct (r attempt) as [code|] eqn:Er.
    + destruct (is_success code) eqn:Es.
      * simpl. rewrite Nat.add_sub, Er. simpl. repeat split; try lia; auto.
      * destruct (is_retry_status code) eqn:Et; simpl.
        -- split; [lia|]. split; [symmetry; exact Hseq|].
           split; [apply Hall; simpl; rewrite ?Es, ?Et; reflexivity|].
           split; [exact Hok|].
           destruct Hstop as [H|[H|H]]; [left|right; left|right; right; lia]; exact H.
        -- rewrite Nat.add_sub, Er. simpl. rewrite Es, Et.
           repeat split; try lia; auto.
    + simpl. split; [lia|]. split; [symmetry; exact Hseq|].
      split; [apply Hall; reflexivity|].
      split; [exact Hok|].
      destruct Hstop as [H|[H|H]]; [left|right; left|right; right; lia]; exact H.
  - unfold max_retries in Hge.
    assert (Hleft : left = O) by lia. subst left.
    destruct (r attempt) as [code|] eqn:Er.
    + destruct (is_success code) eqn:Es.
      * simpl. rewrite Nat.add_sub, Er. simpl. rewrite Es.
        repeat split; try lia; auto.
      * rewrite andb_false_r, Nat.add_sub, Er. simpl. rewrite Es.
        repeat split; try lia; auto.
    + simpl. rewrite Nat.add_sub, Er. simpl.
      repeat split; try lia; auto.
Qed.

Lemma client_error_not_retryable c :
  400 <= c < 500 -> is_retry_status c = false /\ is_success c = false.
Proof.
  intros Hc. unfold is_retry_status, is_success.
  destruct (Z.eqb_spec c 500), (Z.eqb_spec c 502), (Z.eqb_spec c 503),
    (Z.eqb_spec c 504), (Z.eqb_spec c 200), (Z.eqb_spec c 201); simpl; lia.
Qed.

(** C6 (amended): [_patch_note] makes between 1 and 4 PATCH calls,
    sleeping base delays 0.5 s, 1 s, 2 s (plus jitter) between them; every
    call but the last was a retryable failure (status 500, 502, 503, 504
    or an exception); it stops at the first 200/201, at the first other
    status (every 4xx, and also 5xx codes such as 501 or 505), or after
    the 4th call; it returns [True] exactly when some call returned 200 or
    201.  [do_send] leaves the batch queue alone and, on failure only,
    releases the note id to the free pool. *)
Theorem patch_retry_policy (r : nat -> response) (note_id : pystr) (s : sys) :
  map base_delay_ms (seq 0 3) = [500; 1000; 2000] /\
  match patch_note r with
  | (ok, n, ds) =>
      (1 <= n <= 4)%nat /\
      ds = map base_delay_ms (seq 0 (n - 1)) /\
      (forall a, (a < n - 1)%nat ->
         success_resp (r a) = false /\ retryable (r a) = true) /\
      (success_resp (r (n - 1)%nat) = true \/ retryable (r (n - 1)%nat) = false \/
       n = 4%nat) /\
      (ok = true <-> exists a, (a < n)%nat /\ success_resp (r a) = true) /\
      (forall a c, (a < n)%nat -> r a = HttpStatus c -> 400 <= c < 500 ->
         a = (n - 1)%nat /\ ok = false) /\
      sys_queue (do_send r note_id s) = sys_queue s /\
      sys_pool (do_send r note_id s) =
        (if ok then sys_pool s else NotePool.release_note note_id (sys_pool s))
  end.
Proof.
  split; [reflexivity|].
  pose proof (patch_loop_spec r 4 0 eq_refl ltac:(lia)) as Hs.
  unfold do_send. change (patch_note r) with (patch_loop r 0 4).
  destruct (patch_loop r 0 4) as [[ok n] ds] eqn:E.
  destruct Hs as (Hn & Hds & Hbefore & Hok & Hstop). simpl in Hbefore, Hok, Hstop.
  assert (Hbefore' : forall a, (a < n - 1)%nat ->
            success_resp (r a) = false /\ retryable (r a) = true).
  { intros a Ha. apply Hbefore. lia. }
  split; [lia|]. split; [exact Hds|]. split; [exact Hbefore'|].
  split; [destruct Hstop as [H|[H|H]]; auto|].
  split.
  { split.
    - intros ->. exists (n - 1)%nat. split; [lia|]. auto.
    - intros (a & Ha & Hsa). rewrite Hok.
      destruct (Nat.eq_dec a (n - 1)%nat) as [->|Hne]; [exact Hsa|].
      destruct (Hbefore' a ltac:(lia)) as [Hf _]. congruence. }
  split.
  { intros a c Ha Hr Hc. destruct (client_error_not_retryable c Hc) as [Hnr Hns].
    assert (Hlast : a = (n - 1)%nat).
    { destruct (Nat.eq_dec a (n - 1)%nat) as [->|Hne]; [reflexivity|].
      destruct (Hbefore' a ltac:(lia)) as [_ Ht]. rewrite Hr in Ht. simpl in Ht. congruence. }
    split; [exact Hlast|]. rewrite Hok, <- Hlast, Hr. exact Hns. }
  destruct ok; simpl; split; reflexivity.
Qed.

(** C6 counterexample: a first PATCH answered with HTTP 501 is not
    retried, although a retry would have succeeded. *)
Lemma patch_501_not_retried :
  patch_note (fun a => match a with O => HttpStatus 501 | S _ => HttpStatus 200 end)
  = (false, 1%nat, []).
Proof. reflexivity. Qed.

End PatchFacts.

(* ------------------------------------------------------------------ *)
(** ** Chunk numbering in the tunnel loops *)

Module TunnelFacts.
Import Tunnel.

Lemma seqZ_snoc n : 0 <= n -> seqZ 1 (n + 1) = seqZ 1 n ++ [n + 1].
Proof.
  intros Hn. rewrite seqZ_app by lia.
  rewrite (seqZ_cons (1 + n) 1) by lia. rewrite (seqZ_nil _ (Z.pred 1)) by (cbn; lia).
  do 2 f_equal. lia.
Qed.

Lemma put_indices_app t1 t2 : put_indices (t1 ++ t2) = put_indices t1 ++ put_indices t2.
Proof. unfold put_indices. apply flat_map_app. Qed.

Lemma delivered_indices_app t1 t2 :
  delivered_indices (t1 ++ t2) = delivered_indices t1 ++ delivered_indices t2.
Proof. unfold delivered_indices. apply flat_map_app. Qed.

Lemma consumer_scan_app r t1 t2 :
  consumer_scan r (t1 ++ t2) =
  match consumer_scan r t1 with Some r' => consumer_scan r' t2 | None => None end.
Proof.
  revert r. induction t1 as [|e t1 IH]; intros r; [reflexivity|].
  destruct e; simpl; try (destruct (_ =? _)); auto.
Qed.

(** Appending calls to the trace: [tr] puts [ps], delivers [ds] and, read
    from the last delivered chunk, is accepted by the consumer scan. *)
Lemma numbering_extend s b n m tr :
  numbering_ok s ->
  0 <= n -> 0 <= m ->
  seqZ 1 (sent s) ++ put_indices tr = seqZ 1 n ->
  seqZ 1 (recvd s) ++ delivered_indices tr = seqZ 1 m ->
  consumer_scan (recvd s) tr = Some m ->
  numbering_ok (mk_t b n m (trace s ++ tr)).
Proof.
  intros (Hs & Hr & Hp & Hd & Hc) Hn Hm Hp' Hd' Hc'.
  unfold numbering_ok; simpl.
  rewrite put_indices_app, delivered_indices_app, consumer_scan_app, Hp, Hd, Hc.
  auto.
Qed.

Lemma send_buf_ok s : numbering_ok s -> numbering_ok (send_buf s).
Proof.
  intros H. pose proof H as (Hs & Hr & _).
  unfold send_buf. apply numbering_extend; simpl; auto; try lia.
  - rewrite seqZ_snoc by lia. reflexivity.
  - apply app_nil_r.
Qed.

Lemma set_buf_ok b s : numbering_ok s -> numbering_ok (set_buf b s).
Proof. destruct s. unfold set_buf, numbering_ok. simpl. auto. Qed.

Lemma on_data_ok cs d s : numbering_ok s -> numbering_ok (on_data cs d s).
Proof.
  intros H. unfold on_data.
  destruct (cs <? _); [|apply set_buf_ok; exact H].
  apply set_buf_ok. destruct (0 <? _); [apply send_buf_ok|]; exact H.
Qed.

Lemma idle_flush_ok o s : numbering_ok s -> numbering_ok (idle_flush o s).
Proof.
  intros H. unfold idle_flush.
  destruct (_ && _); [apply set_buf_ok, send_buf_ok|]; exact H.
Qed.

Lemma peer_step_ok o s : numbering_ok s -> numbering_ok (peer_step o s).
Proof.
  intros H. pose proof H as (Hs & Hr & _).
  unfold peer_step; simpl.
  assert (Hh : numbering_ok (mk_t (buf s) (sent s) (recvd s) (trace s ++ [EHead (recvd s + 1)]))).
  { apply numbering_extend; simpl; auto using app_nil_r.
    rewrite Z.eqb_refl. reflexivity. }
  destruct (o_head o); [|exact Hh].
  assert (Hg : numbering_ok (mk_t (buf s) (sent s) (recvd s)
                 ((trace s ++ [EHead (recvd s + 1)]) ++ [EGet (recvd s + 1)]))).
  { rewrite <- app_assoc. apply numbering_extend; simpl; auto using app_nil_r.
    rewrite !Z.eqb_refl. reflexivity. }
  destruct (o_get o) as [[|x d]|]; [exact Hg| |exact Hg].
  destruct (o_send_ok o); [|exact Hg].
  rewrite <- !app_assoc. apply numbering_extend; simpl; auto using app_nil_r; try lia.
  - rewrite seqZ_snoc by lia. reflexivity.
  - rewrite !Z.eqb_refl. reflexivity.
Qed.

Lemma final_flush_ok s : numbering_ok s -> numbering_ok (final_flush s).
Proof.
  intros H. unfold final_flush. destruct (0 <? _); [apply send_buf_ok|]; exact H.
Qed.

Lemma client_iter_ok cs o s :
  numbering_ok s ->
  match client_iter cs o s with inl s' | inr s' => numbering_ok s' end.
Proof.
  intros H. unfold client_iter.
  assert (Hbody : numbering_ok
    (peer_step o (idle_flush o
       (match o_read o with RData d => on_data cs d s | _ => s end)))).
  { apply peer_step_ok, idle_flush_ok.
    destruct (o_read o); auto using on_data_ok. }
  destruct (o_read o) as [|[|x d]|]; try exact H;
    destruct (o_timeout o); exact Hbody.
Qed.

Lemma server_iter_ok cs o s :
  numbering_ok s ->
  match server_iter cs o s with inl s' | inr s' => numbering_ok s' end.
Proof.
  intros H. unfold server_iter.
  pose proof (peer_step_ok o s H) as Hp.
  assert (Hbody : numbering_ok
    (idle_flush o (match o_read o with RData d => on_data cs d (peer_step o s)
                                     | _ => peer_step o s end))).
  { apply idle_flush_ok. destruct (o_read o); auto using on_data_ok. }
  destruct (o_read o) as [|[|x d]|]; try exact Hp;
    destruct (o_timeout o); exact Hbody.
Qed.

Lemma run_loop_ok (iter : obs -> tstate -> tstate + tstate) :
  (forall o s, numbering_ok s ->
     match iter o s with inl s' | inr s' => numbering_ok s' end) ->
  forall os s, numbering_ok s -> numbering_ok (fst (run_loop iter os s)).
Proof.
  intros Hiter os. induction os as [|o os IH]; intros s H; [exact H|].
  simpl. specialize (Hiter o s H).
  destruct (iter o s) as [s'|s']; [apply IH, Hiter|apply final_flush_ok, Hiter].
Qed.

Lemma init_ok : numbering_ok init_t.
Proof. unfold numbering_ok; simpl. repeat split; lia. Qed.

(** C3: in every run of the client loop ([TunnelHandler.handle]) and of
    the server loop ([ServerTunnelHandler._tunnel_loop]), whatever the
    socket, clock and storage do, the chunk numbers passed to
    [put_chunk] are exactly [1, 2, ..., sent] (overflow, idle and final
    flushes each increment the counter by one first), the chunks
    delivered are exactly [1, 2, ..., recvd], and every
    [head_chunk]/[get_chunk] asks for the chunk after the last one
    delivered. *)
Theorem tunnel_chunk_numbering (chunk_size : Z) (os : list obs) :
  numbering_ok (fst (run_client chunk_size os)) /\
  numbering_ok (fst (run_server chunk_size os)).
Proof.
  split; apply run_loop_ok; auto using init_ok.
  - intros o s. apply client_iter_ok.
  - intros o s. apply server_iter_ok.
Qed.

End TunnelFacts.

(* ================================================================== *)
(** * Further properties of the code *)

(* ------------------------------------------------------------------ *)
(** ** Decimal digits and string splitting *)

Module DigitFacts.
Import Title.

Lemma uint_digits_ascii u : forallb is_ascii_digit (uint_digits u) = true.
Proof. induction u; simpl; rewrite ?IHu; reflexivity. Qed.

Lemma uint_digits_length u : length (uint_digits u) = Decimal.nb_digits u.
Proof. induction u; simpl; auto. Qed.

Lemma int_of_decimals_uint_acc u (acc : positive) :
  int_of_decimals ascii_decimal (Zpos acc) (uint_digits u) = Some (Zpos (Pos.of_uint_acc u acc)).
Proof.
  revert acc. induction u; intros acc; simpl; try reflexivity;
    rewrite <- IHu; f_equal; lia.
Qed.

Lemma int_of_decimals_uint u :
  int_of_decimals ascii_decimal 0 (uint_digits u) = Some (Z.of_N (Pos.of_uint u)).
Proof.
  induction u; simpl; try reflexivity; try exact IHu;
    rewrite <- int_of_decimals_uint_acc; reflexivity.
Qed.

(** [int(str(n))] for [n >= 0]. *)
Lemma int_of_decimals_to_uint n :
  int_of_decimals ascii_decimal 0 (uint_digits (N.to_uint n)) = Some (Z.of_N n).
Proof.
  rewrite int_of_decimals_uint. f_equal. f_equal.
  exact (DecimalN.Unsigned.of_to n).
Qed.

Lemma int_of_decimals_bounds l acc v :
  0 <= acc -> forallb is_ascii_digit l = true ->
  int_of_decimals ascii_decimal acc l = Some v ->
  acc * 10 ^ Z.of_nat (length l) <= v < (acc + 1) * 10 ^ Z.of_nat (length l).
Proof.
  revert acc. induction l as [|c l IH]; intros acc Hacc Hl Hv.
  - simpl in *. injection Hv as <-. lia.
  - simpl in Hl. apply andb_true_iff in Hl as [Hc Hl].
    unfold is_ascii_digit in Hc. apply andb_true_iff in Hc as [H1 H2].
    apply Z.leb_le in H1, H2.
    simpl in Hv. unfold ascii_decimal in Hv at 1.
    rewrite (proj2 (Z.leb_le 48 c) H1), (proj2 (Z.leb_le c 57) H2) in Hv. simpl in Hv.
    specialize (IH (acc * 10 + (c - 48)) ltac:(lia) Hl Hv).
    rewrite length_cons, Nat2Z.inj_succ, Z.pow_succ_r by lia.
    pose proof (Z.pow_pos_nonneg 10 (Z.of_nat (length l)) ltac:(lia) ltac:(lia)).
    nia.
Qed.

(** [str(n)] of a positive number does not start with [0]. *)
Lemma to_uint_leading n :
  (0 < n)%N -> exists c l, uint_digits (N.to_uint n) = c :: l /\ c <> 48.
Proof.
  intros Hn.
  assert (Hfix : N.to_uint n = Decimal.unorm (N.to_uint n)).
  { rewrite <- (DecimalN.Unsigned.to_of (N.to_uint n)), DecimalN.Unsigned.of_to.
    reflexivity. }
  destruct (N.to_uint n) as [|u|u|u|u|u|u|u|u|u|u] eqn:E; simpl;
    try (eexists _, _; split; [reflexivity|discriminate]).
  - exfalso. pose proof (DecimalN.Unsigned.of_to n) as Ho. rewrite E in Ho.
    simpl in Ho. subst n. discriminate.
  - exfalso. rewrite DecimalFacts.unorm_D0 in Hfix.
    destruct (Decimal.uint_eq_dec u Decimal.Nil) as [->|Hne].
    + pose proof (DecimalN.Unsigned.of_to n) as Ho. rewrite E in Ho.
      simpl in Ho. subst n. discriminate.
    + pose proof (DecimalFacts.nb_digits_unorm u Hne) as Hle.
      rewrite <- Hfix in Hle. simpl in Hle. lia.
Qed.

(** The number of digits of [str(n)] is fixed by the size of [n]. *)
Lemma to_uint_length n k :
  10 ^ Z.of_nat k <= Z.of_N n < 10 ^ Z.of_nat (S k) ->
  length (uint_digits (N.to_uint n)) = S k.
Proof.
  intros Hb.
  destruct (to_uint_leading n) as (c & l & Hcl & Hc0); [lia|].
  pose proof (int_of_decimals_to_uint n) as Hv. rewrite Hcl in Hv.
  pose proof (uint_digits_ascii (N.to_uint n)) as Ha. rewrite Hcl in Ha.
  simpl in Ha. apply andb_true_iff in Ha as [Hc Hl].
  unfold is_ascii_digit in Hc. apply andb_true_iff in Hc as [H1 H2].
  apply Z.leb_le in H1, H2.
  simpl in Hv. unfold ascii_decimal in Hv at 1.
  rewrite (proj2 (Z.leb_le 48 c) H1), (proj2 (Z.leb_le c 57) H2) in Hv. simpl in Hv.
  pose proof (int_of_decimals_bounds l (c - 48) _ ltac:(lia) Hl Hv) as Hr.
  rewrite Hcl. simpl length.
  assert (Hlt : forall a b, 10 ^ Z.of_nat a < 10 ^ Z.of_nat (S b) -> (a <= b)%nat).
  { intros a b H. destruct (Nat.le_gt_cases a b) as [|Hgt]; [assumption|].
    exfalso. assert (10 ^ Z.of_nat (S b) <= 10 ^ Z.of_nat a)
      by (apply Z.pow_le_mono_r; lia). lia. }
  pose proof (Z.pow_pos_nonneg 10 (Z.of_nat (length l)) ltac:(lia) ltac:(lia)) as Hp.
  assert (Hc1 : 1 <= c - 48) by lia.
  f_equal. apply Nat.le_antisymm.
  - apply Hlt. nia.
  - apply Hlt. rewrite Nat2Z.inj_succ, Z.pow_succ_r by lia. nia.
Qed.

(** [udecimal] agrees with ASCII on the digits [0-9]. *)
Lemma int_of_decimals_ascii (udecimal : Z -> option Z)
    (Hud : forall k, 0 <= k <= 9 -> udecimal (48 + k) = Some k) l acc :
  forallb is_ascii_digit l = true ->
  int_of_decimals udecimal acc l = int_of_decimals ascii_decimal acc l.
Proof.
  revert acc. induction l as [|c l IH]; intros acc Hl; [reflexivity|].
  simpl in Hl. apply andb_true_iff in Hl as [Hc Hl].
  unfold is_ascii_digit in Hc. apply andb_true_iff in Hc as [H1 H2].
  apply Z.leb_le in H1, H2. simpl.
  replace c with (48 + (c - 48)) at 1 by lia. rewrite Hud by lia.
  unfold ascii_decimal. rewrite (proj2 (Z.leb_le 48 c) H1), (proj2 (Z.leb_le c 57) H2).
  simpl. apply IH, Hl.
Qed.

Lemma int_of_decimals_zeros k l :
  int_of_decimals ascii_decimal 0 (repeat 48 k ++ l) = int_of_decimals ascii_decimal 0 l.
Proof. induction k; simpl; auto. Qed.

(** [f"{n:05d}"] for [0 <= n <= 99999]: five ASCII digits reading [n]. *)
Lemma fmt05_spec n :
  0 <= n <= 99999 ->
  length (fmt05 n) = 5%nat /\ forallb is_ascii_digit (fmt05 n) = true /\
  int_of_decimals ascii_decimal 0 (fmt05 n) = Some n.
Proof.
  intros Hn. unfold fmt05.
  rewrite (proj2 (Z.ltb_ge n 0)) by lia. simpl app.
  assert (Hlen : (length (uint_digits (N.to_uint (Z.abs_N n))) <= 5)%nat).
  { destruct (Z.eq_dec n 0) as [->|Hnz]; [simpl; lia|].
    destruct (Z.lt_ge_cases n 10); [rewrite (to_uint_length _ 0); [simpl; lia|rewrite N2Z.inj_abs_N; simpl; lia]|].
    destruct (Z.lt_ge_cases n 100); [rewrite (to_uint_length _ 1); [simpl; lia|rewrite N2Z.inj_abs_N; simpl; lia]|].
    destruct (Z.lt_ge_cases n 1000); [rewrite (to_uint_length _ 2); [simpl; lia|rewrite N2Z.inj_abs_N; simpl; lia]|].
    destruct (Z.lt_ge_cases n 10000); [rewrite (to_uint_length _ 3); [simpl; lia|rewrite N2Z.inj_abs_N; simpl; lia]|].
    rewrite (to_uint_length _ 4); [simpl; lia|rewrite N2Z.inj_abs_N; simpl; lia]. }
  split; [|split].
  - rewrite length_app, repeat_length. simpl length. lia.
  - rewrite forallb_app, uint_digits_ascii, andb_true_r.
    apply forallb_forall. intros x Hx. apply repeat_spec in Hx. subst. reflexivity.
  - rewrite int_of_decimals_zeros, int_of_decimals_to_uint. f_equal. lia.
Qed.

(** [s.split(sep)] over a stretch with no character equal to the first
    one of [sep]. *)
Lemma split_go_skip sep cur a s :
  sep <> [] -> Forall (fun x => x <> hd 0 sep) a ->
  split_go sep O cur (a ++ s) = split_go sep O (rev a ++ cur) s.
Proof.
  intros Hsep. revert cur. induction a as [|x a IH]; intros cur Ha; [reflexivity|].
  inversion Ha as [|x' a' Hx Ha']; subst.
  destruct sep as [|y sep']; [congruence|]. simpl in Hx.
  cbn [app split_go prefixb]. rewrite (proj2 (Z.eqb_neq y x) (not_eq_sym Hx)).
  cbn [andb]. rewrite IH by assumption. simpl. rewrite <- app_assoc. reflexivity.
Qed.

Lemma split_go_drop sep l cur s :
  split_go sep (length l) cur (l ++ s) = split_go sep O cur s.
Proof. induction l as [|x l IH]; [reflexivity|]. simpl. exact IH. Qed.

(** At an occurrence of [sep] the current piece ends and the rest of the
    separator is skipped. *)
Lemma split_go_sep c sep' cur s :
  split_go (c :: sep') O cur ((c :: sep') ++ s) =
  rev cur :: split_go (c :: sep') O [] s.
Proof.
  simpl. rewrite Z.eqb_refl. simpl.
  assert (Hp : prefixb sep' (sep' ++ s) = true).
  { induction sep'; simpl; [reflexivity|]. rewrite Z.eqb_refl. assumption. }
  rewrite Hp. simpl. f_equal. apply split_go_drop.
Qed.

End DigitFacts.

(* ------------------------------------------------------------------ *)
(** ** Titles: [_parse_title] reads back what [_make_title] writes *)

Module TitleTrip.
Import Inbox Title DigitFacts.

Lemma take_n_app n a b : length a = n -> take_n n (a ++ b) = Some (a, b).
Proof.
  intros <-. unfold take_n. rewrite length_app.
  rewrite (proj2 (Nat.ltb_ge _ _)) by lia.
  rewrite firstn_app, skipn_app, firstn_all, skipn_all, Nat.sub_diag. simpl.
  rewrite app_nil_r. reflexivity.
Qed.

Lemma take_n_all n a : length a = n -> take_n n a = Some (a, []).
Proof. intros H. rewrite <- (app_nil_r a) at 1. apply take_n_app, H. Qed.

Lemma expect_cons c r : expect c (c :: r) = Some r.
Proof. unfold expect. rewrite Z.eqb_refl. reflexivity. Qed.

Lemma digits5_fmt05 (udecimal : Z -> option Z)
    (Hud : forall k, 0 <= k <= 9 -> udecimal (48 + k) = Some k) n r :
  0 <= n <= 99999 -> digits5 udecimal (fmt05 n ++ r) = Some (n, r).
Proof.
  intros Hn. destruct (fmt05_spec n Hn) as (Hl & Ha & Hv).
  unfold digits5. rewrite take_n_app by exact Hl. cbv beta iota.
  rewrite (int_of_decimals_ascii udecimal Hud) by exact Ha. rewrite Hv. reflexivity.
Qed.

Lemma no_newline_existsb (l : pystr) :
  ~ In 10 l -> existsb (fun c => c =? 10) l = false.
Proof.
  intros Hn. destruct (existsb (fun c => c =? 10) l) eqn:E; [|reflexivity].
  apply existsb_exists in E as (x & Hx & Hx'). apply Z.eqb_eq in Hx'. subst. contradiction.
Qed.

Lemma ascii_decimal_digit k : 0 <= k <= 9 -> ascii_decimal (48 + k) = Some k.
Proof.
  intros Hk. unfold ascii_decimal.
  replace ((48 <=? 48 + k) && (48 + k <=? 57)) with true
    by (symmetry; apply andb_true_iff; split; apply Z.leb_le; lia).
  f_equal. lia.
Qed.

Lemma parse_make_title_gen (udecimal : Z -> option Z) (uword : Z -> bool)
    (Hud : forall k, 0 <= k <= 9 -> udecimal (48 + k) = Some k)
    (d : Z) (rid : pystr) (chunk total : Z) (ty : pystr) :
  (d = 60 \/ d = 62) -> length rid = 16%nat -> ~ In 10 rid ->
  0 <= chunk <= 99999 -> 0 <= total <= 99999 ->
  length ty = 4%nat -> forallb uword ty = true ->
  parse_title udecimal uword (make_title d rid chunk total ty) =
  Some (mk_parsed d rid chunk total ty).
Proof.
  intros Hd Hrid Hnl Hc Ht Hty Hw. unfold make_title, parse_title.
  cbn [app].
  replace (negb ((d =? 60) || (d =? 62))) with false
    by (destruct Hd as [-> | ->]; reflexivity).
  cbv beta iota.
  rewrite take_n_app by exact Hrid. cbv beta iota.
  rewrite no_newline_existsb by exact Hnl. cbv beta iota.
  rewrite expect_cons. cbv beta iota.
  rewrite (digits5_fmt05 udecimal Hud) by exact Hc. cbv beta iota.
  rewrite expect_cons. cbv beta iota.
  rewrite (digits5_fmt05 udecimal Hud) by exact Ht. cbv beta iota.
  rewrite expect_cons. cbv beta iota.
  rewrite take_n_all by exact Hty. cbv beta iota.
  rewrite Hw. reflexivity.
Qed.

(** [_parse_title(_make_title(request_id, chunk, total, msg_type))] gives
    back the direction and the four fields, for a 16-character request id
    without a newline, [chunk] and [total] in [0..99999] and a type of
    four word characters; [\d] must read the ASCII digits as their value. *)
Theorem parse_make_title (udecimal : Z -> option Z) (uword : Z -> bool)
    (Hud : forall k, 0 <= k <= 9 -> udecimal (48 + k) = Some k)
    (d : Z) (rid : pystr) (chunk total : Z) (ty : pystr) :
  (d = 60 \/ d = 62) -> length rid = 16%nat -> ~ In 10 rid ->
  0 <= chunk <= 99999 -> 0 <= total <= 99999 ->
  length ty = 4%nat -> forallb uword ty = true ->
  parse_title udecimal uword (make_title d rid chunk total ty) =
  Some (mk_parsed d rid chunk total ty).
Proof. apply parse_make_title_gen, Hud. Qed.

Lemma parse_make_title_witness :
  parse_title ascii_decimal ascii_word
    (make_title 62 (s2l "1700000000000abc") 3 0 TYPE_DATA) =
  Some (mk_parsed 62 (s2l "1700000000000abc") 3 0 TYPE_DATA).
Proof.
  apply (parse_make_title ascii_decimal ascii_word ascii_decimal_digit).
  - right. reflexivity.
  - reflexivity.
  - vm_compute. intuition discriminate.
  - lia.
  - lia.
  - reflexivity.
  - reflexivity.
Defined.

End TitleTrip.

(* ------------------------------------------------------------------ *)
(** ** The chunk API of the inbox *)

Module InboxOpsFacts.
Import Inbox InboxOps.

(** [get_chunk] returns [inbox_data[key][chunk_num]] (or [None]),
    [head_chunk] tells whether that value exists, and the call removes
    exactly that one chunk: every other (key, chunk) pair reads as before,
    and [inbox_complete] and [pending_requests] are untouched. *)
Theorem get_chunk_pops (rid : pystr) (n : Z) (st : inbox) :
  let key := inbox_key rid TYPE_DATA in
  let '(r, st') := get_chunk rid n st in
  r = (inbox_data st !! key) ≫= (.!! n) /\
  head_chunk rid n st = bool_decide (is_Some r) /\
  (inbox_data st' !! key) ≫= (.!! n) = None /\
  (forall k m, (k, m) <> (key, n) ->
     (inbox_data st' !! k) ≫= (.!! m) = (inbox_data st !! k) ≫= (.!! m)) /\
  inbox_complete st' = inbox_complete st /\
  pending_requests st' = pending_requests st.
Proof.
  cbv zeta. unfold get_chunk, head_chunk.
  destruct (inbox_data st !! inbox_key rid TYPE_DATA) as [chunks|] eqn:Ek; simpl.
  - destruct (chunks !! n) as [v|] eqn:En; simpl.
    + split; [reflexivity|]. split; [reflexivity|].
      destruct (Nat.eqb (size (delete n chunks)) 0) eqn:Es; simpl.
      * apply Nat.eqb_eq, map_size_empty_iff in Es.
        split; [rewrite lookup_delete_eq; reflexivity|].
        split; [|split; reflexivity].
        intros k m Hkm.
        destruct (decide (k = inbox_key rid TYPE_DATA)) as [->|Hk].
        -- rewrite lookup_delete_eq, Ek. simpl.
           assert (Hm : m <> n) by congruence.
           rewrite <- (lookup_delete_ne chunks n m) by congruence.
           rewrite Es, lookup_empty. reflexivity.
        -- rewrite lookup_delete_ne by congruence. reflexivity.
      * split; [rewrite lookup_insert_eq; simpl; apply lookup_delete_eq|].
        split; [|split; reflexivity].
        intros k m Hkm.
        destruct (decide (k = inbox_key rid TYPE_DATA)) as [->|Hk].
        -- rewrite lookup_insert_eq, Ek. simpl.
           apply lookup_delete_ne. congruence.
        -- rewrite lookup_insert_ne by congruence. reflexivity.
    + rewrite Ek. simpl. split; [reflexivity|]. split; [reflexivity|].
      split; [exact En|]. split; [|split; reflexivity]. reflexivity.
  - rewrite Ek. simpl. split; [reflexivity|]. split; [reflexivity|].
    split; [reflexivity|]. split; [|split; reflexivity]. reflexivity.
Qed.

Lemma pystr_eqb_refl a : pystr_eqb a a = true.
Proof. unfold pystr_eqb. apply bool_decide_eq_true. reflexivity. Qed.

(** A DATA unit stored by [_store_entry] is announced by [head_chunk],
    handed out once by [get_chunk], and gone at the next [get_chunk]. *)
Theorem store_data_get_chunk (p : parsed) (data : bytes) (st : inbox) :
  p_type p = TYPE_DATA ->
  let st1 := store_entry p data st in
  let '(r1, st2) := get_chunk (p_request_id p) (p_chunk p) st1 in
  head_chunk (p_request_id p) (p_chunk p) st1 = true /\
  r1 = Some (IRaw data) /\
  head_chunk (p_request_id p) (p_chunk p) st2 = false /\
  fst (get_chunk (p_request_id p) (p_chunk p) st2) = None.
Proof.
  intros Hty. cbv zeta. unfold store_entry. rewrite Hty, pystr_eqb_refl.
  set (key := inbox_key (p_request_id p) TYPE_DATA).
  set (chunks := <[p_chunk p:=IRaw data]> (from_option id ∅ (inbox_data st !! key))).
  unfold get_chunk, head_chunk; cbn [inbox_data]. fold key.
  rewrite !lookup_insert_eq. subst chunks. rewrite lookup_insert_eq.
  cbv beta iota zeta.
  destruct (Nat.eqb _ 0) eqn:Es; cbn [inbox_data fst snd].
  - rewrite lookup_delete_eq. repeat split; reflexivity.
  - rewrite lookup_insert_eq, lookup_delete_eq. repeat split; reflexivity.
Qed.

(** [inbox_data] never keeps an empty dict of chunks: [_store_entry]
    only adds non-empty dicts or deletes a key, [get_chunk] deletes the
    key of a dict it empties, and [_cleanup_stale] only drops keys. *)
Theorem inbox_no_empty_dicts (py_int : pystr -> option Z) (st : inbox) :
  map_Forall (fun _ m => m <> ∅) (inbox_data st) ->
  (forall p data, map_Forall (fun _ m => m <> ∅) (inbox_data (store_entry p data st))) /\
  (forall rid n, map_Forall (fun _ m => m <> ∅) (inbox_data (get_chunk rid n st).2)) /\
  (forall now, map_Forall (fun _ m => m <> ∅) (inbox_data (cleanup_stale py_int now st))).
Proof.
  intros Hst. split; [|split].
  - intros p data. unfold store_entry.
    destruct (pystr_eqb (p_type p) TYPE_DATA); cbn [inbox_data].
    { apply map_Forall_insert_2; [apply insert_non_empty|exact Hst]. }
    destruct (p_total p <=? 1); cbn [inbox_data]; [exact Hst|].
    destruct (all_chunks_present _ _).
    + destruct (chunks_in_order _ _); cbn [inbox_data]; apply map_Forall_delete, Hst.
    + cbn [inbox_data]. apply map_Forall_insert_2; [apply insert_non_empty|exact Hst].
  - intros rid n. unfold get_chunk.
    destruct (inbox_data st !! inbox_key rid TYPE_DATA) as [chunks|]; [|exact Hst].
    destruct (chunks !! n); [|exact Hst].
    destruct (Nat.eqb (size (delete n chunks)) 0) eqn:Es; cbn [inbox_data snd].
    + apply map_Forall_delete, Hst.
    + apply map_Forall_insert_2; [|exact Hst].
      apply map_size_non_empty_iff. apply Nat.eqb_neq, Es.
  - intros now. unfold cleanup_stale. cbn [inbox_data].
    intros k m Hk. apply map_lookup_filter_Some in Hk as [Hk _]. exact (Hst k m Hk).
Qed.

Lemma inbox_no_empty_dicts_witness :
  map_Forall (fun _ m => m <> ∅) (inbox_data empty_inbox) /\
  map_Forall (fun _ m => m <> ∅)
    (inbox_data (store_entry (mk_parsed 62 (s2l "r") 1 0 TYPE_DATA) [] empty_inbox)).
Proof.
  assert (H0 : map_Forall (fun _ m => m <> ∅) (inbox_data empty_inbox))
    by (intros k m Hk; simpl in Hk; rewrite lookup_empty in Hk; discriminate).
  split; [exact H0|].
  apply (inbox_no_empty_dicts Title.ascii_int empty_inbox H0).
Defined.

Lemma store_data_get_chunk_witness :
  p_type (mk_parsed 62 (s2l "r") 1 0 TYPE_DATA) = TYPE_DATA /\
  let p := mk_parsed 62 (s2l "r") 1 0 TYPE_DATA in
  let st1 := store_entry p [Byte.x41] empty_inbox in
  let '(r1, st2) := get_chunk (p_request_id p) (p_chunk p) st1 in
  head_chunk (p_request_id p) (p_chunk p) st1 = true /\
  r1 = Some (IRaw [Byte.x41]) /\
  head_chunk (p_request_id p) (p_chunk p) st2 = false /\
  fst (get_chunk (p_request_id p) (p_chunk p) st2) = None.
Proof.
  split; [reflexivity|].
  exact (store_data_get_chunk (mk_parsed 62 (s2l "r") 1 0 TYPE_DATA) [Byte.x41]
           empty_inbox eq_refl).
Defined.

Lemma rid_split (rid mtype : pystr) :
  Forall (fun x => x <> 58) rid ->
  nth 0 (py_split [58] (inbox_key rid mtype)) [] = rid.
Proof.
  intros Hr. unfold py_split, inbox_key.
  rewrite (DigitFacts.split_go_skip [58] [] rid) by (try discriminate; exact Hr).
  rewrite (DigitFacts.split_go_sep 58 [] (rev rid ++ [])). simpl.
  rewrite app_nil_r, rev_involutive. reflexivity.
Qed.

(** The digits of a 13-digit millisecond timestamp. *)
Lemma py_str_int_13 ts :
  1000000000000 <= ts < 10000000000000 ->
  length (RequestId.py_str_int ts) = 13%nat /\
  forallb Title.is_ascii_digit (RequestId.py_str_int ts) = true /\
  Title.int_of_decimals Title.ascii_decimal 0 (RequestId.py_str_int ts) = Some ts.
Proof.
  intros Hts. unfold RequestId.py_str_int.
  rewrite (proj2 (Z.ltb_ge ts 0)) by lia. simpl app.
  split; [|split].
  - apply (DigitFacts.to_uint_length _ 12). rewrite N2Z.inj_abs_N.
    rewrite Z.abs_eq by lia. split; [etransitivity; [|apply Hts]; reflexivity|].
    eapply Z.lt_le_trans; [apply Hts|]. reflexivity.
  - apply DigitFacts.uint_digits_ascii.
  - rewrite DigitFacts.int_of_decimals_to_uint. rewrite N2Z.inj_abs_N.
    f_equal. lia.
Qed.

(** [_cleanup_stale] on the key of a request id made by
    [generate_request_id] (a 13-digit millisecond time and three hex
    characters): the key is dropped exactly when it is more than
    [STALE_TIMEOUT_MS] older than [now_ms], and kept as it is otherwise;
    [int()] must read a string of ASCII digits as its value. *)
Theorem cleanup_stale_request (py_int : pystr -> option Z)
    (Hpy : forall s, s <> [] -> forallb Title.is_ascii_digit s = true ->
                     py_int s = Title.int_of_decimals Title.ascii_decimal 0 s)
    (ts : Z) (hex mtype : pystr) (now_ms : Z) (st : inbox) :
  1000000000000 <= ts < 10000000000000 ->
  forallb RequestId.is_hex_char (firstn 3 hex) = true ->
  let key := inbox_key (RequestId.generate_request_id ts hex) mtype in
  inbox_data (cleanup_stale py_int now_ms st) !! key =
    (if STALE_TIMEOUT_MS <? now_ms - ts then None else inbox_data st !! key).
Proof.
  intros Hts Hhex. cbv zeta.
  destruct (py_str_int_13 ts Hts) as (Hlen & Hdig & Hval).
  assert (Hst : is_stale py_int now_ms
                  (inbox_key (RequestId.generate_request_id ts hex) mtype) =
                (STALE_TIMEOUT_MS <? now_ms - ts)).
  { unfold is_stale. rewrite rid_split.
    - unfold RequestId.generate_request_id.
      rewrite firstn_app, Hlen, Nat.sub_diag, firstn_O, app_nil_r.
      rewrite firstn_all2 by lia.
      rewrite Hpy; [rewrite Hval; reflexivity| |exact Hdig].
      intros E. rewrite E in Hlen. discriminate.
    - unfold RequestId.generate_request_id. apply Forall_app. split.
      + apply List.Forall_forall. intros x Hx.
        pose proof (proj1 (forallb_forall _ _) Hdig x Hx) as Hd.
        unfold Title.is_ascii_digit in Hd. apply andb_true_iff in Hd as [_ Hd].
        apply Z.leb_le in Hd. lia.
      + apply List.Forall_forall. intros x Hx.
        pose proof (proj1 (forallb_forall _ _) Hhex x Hx) as Hd.
        unfold RequestId.is_hex_char in Hd.
        apply orb_true_iff in Hd as [Hd|Hd]; apply andb_true_iff in Hd as [H1 H2];
          apply Z.leb_le in H1, H2; lia. }
  unfold cleanup_stale. cbn [inbox_data].
  destruct (inbox_data st !! inbox_key (RequestId.generate_request_id ts hex) mtype)
    as [m|] eqn:Ek.
  - destruct (STALE_TIMEOUT_MS <? now_ms - ts) eqn:Et.
    + apply map_lookup_filter_None. right. intros m' Hm'. simpl. congruence.
    + apply map_lookup_filter_Some. split; [exact Ek|]. simpl. congruence.
  - rewrite map_lookup_filter_None_2 by (left; exact Ek).
    destruct (STALE_TIMEOUT_MS <? now_ms - ts); reflexivity.
Qed.

Lemma cleanup_stale_request_witness :
  let key := inbox_key (RequestId.generate_request_id 1700000000000 (s2l "abc")) TYPE_DATA in
  inbox_data (cleanup_stale Title.ascii_int 1700000600001
                (store_entry (mk_parsed 62 (RequestId.generate_request_id 1700000000000 (s2l "abc"))
                                        1 0 TYPE_DATA) [] empty_inbox)) !! key = None.
Proof.
  apply (cleanup_stale_request Title.ascii_int
           ltac:(intros s Hs _; destruct s; [congruence|reflexivity])
           1700000000000 (s2l "abc") TYPE_DATA 1700000600001).
  - lia.
  - reflexivity.
Defined.

End InboxOpsFacts.

(* ------------------------------------------------------------------ *)
(** ** Storage paths of request ids ([_parse_storage_path]) *)

Module PathFacts.
Import Inbox Router.

Lemma forall_neq_of_forallb c l :
  forallb (fun x => negb (x =? c)) l = true -> Forall (fun x => x <> c) l.
Proof.
  intros H. apply List.Forall_forall. intros x Hx.
  pose proof (proj1 (forallb_forall _ _) H x Hx) as Hn.
  apply negb_true_iff, Z.eqb_neq in Hn. exact Hn.
Qed.

(** The characters of a generated request id: an optional minus sign,
    decimal digits and lowercase hex digits. *)
Lemma request_id_chars ts hex :
  forallb RequestId.is_hex_char (firstn 3 hex) = true ->
  Forall (fun x => x = 45 \/ 48 <= x <= 57 \/ 97 <= x <= 102)
    (RequestId.generate_request_id ts hex).
Proof.
  intros Hhex. unfold RequestId.generate_request_id, RequestId.py_str_int.
  apply Forall_app. split; [apply Forall_app; split|].
  - destruct (ts <? 0); repeat constructor; lia.
  - pose proof (DigitFacts.uint_digits_ascii (N.to_uint (Z.abs_N ts))) as Hd.
    apply List.Forall_forall. intros x Hx.
    pose proof (proj1 (forallb_forall _ _) Hd x Hx) as Hc.
    unfold Title.is_ascii_digit in Hc. apply andb_true_iff in Hc as [H1 H2].
    apply Z.leb_le in H1, H2. lia.
  - apply List.Forall_forall. intros x Hx.
    pose proof (proj1 (forallb_forall _ _) Hhex x Hx) as Hd.
    unfold RequestId.is_hex_char in Hd.
    apply orb_true_iff in Hd as [Hd|Hd]; apply andb_true_iff in Hd as [H1 H2];
      apply Z.leb_le in H1, H2; lia.
Qed.

Lemma split1_piece c a b :
  Forall (fun x => x <> c) a -> py_split [c] (a ++ c :: b) = a :: py_split [c] b.
Proof.
  intros Ha. unfold py_split.
  rewrite (DigitFacts.split_go_skip [c] [] a) by (try discriminate; exact Ha).
  pose proof (DigitFacts.split_go_sep c [] (rev a ++ []) b) as E. cbn [app] in E.
  rewrite E, app_nil_r, rev_involutive. reflexivity.
Qed.

Lemma split1_none c a :
  Forall (fun x => x <> c) a -> py_split [c] a = [a].
Proof.
  intros Ha. unfold py_split. rewrite <- (app_nil_r a) at 1.
  rewrite (DigitFacts.split_go_skip [c] [] a) by (try discriminate; exact Ha).
  simpl. rewrite app_nil_r, rev_involutive. reflexivity.
Qed.

Lemma py_in_absent c t s :
  Forall (fun x => x <> c) s -> py_in (c :: t) s = false.
Proof.
  induction 1 as [|x s Hx Hs IH]; [reflexivity|].
  simpl. rewrite (proj2 (Z.eqb_neq c x)) by congruence. simpl. exact IH.
Qed.

Lemma request_id_path (py_int : pystr -> option Z)
    (ts : Z) (hex dir : pystr) :
  forallb RequestId.is_hex_char (firstn 3 hex) = true ->
  (dir = s2l "outbox/" \/ dir = s2l "inbox/") ->
  parse_storage_path py_int (dir ++ RequestId.generate_request_id ts hex ++ s2l ".json") =
  Some (RequestId.generate_request_id ts hex, s2l "H", None).
Proof.
  intros Hhex Hdir.
  set (rid := RequestId.generate_request_id ts hex).
  pose proof (request_id_chars ts hex Hhex) as Hc. fold rid in Hc.
  assert (Hno : forall c, c = 46 \/ c = 47 \/ c = 95 -> Forall (fun x => x <> c) rid).
  { intros c Hcc. revert Hc. apply List.Forall_impl. intros x Hx. lia. }
  assert (Hdir' : exists d0, dir = d0 ++ [47] /\ Forall (fun x => x <> 47) d0).
  { destruct Hdir as [->| ->].
    - exists (s2l "outbox"). split; [reflexivity|]. apply forall_neq_of_forallb. reflexivity.
    - exists (s2l "inbox"). split; [reflexivity|]. apply forall_neq_of_forallb. reflexivity. }
  destruct Hdir' as (d0 & -> & Hd0).
  unfold parse_storage_path.
  change (s2l "/") with [47].
  rewrite <- app_assoc. cbn [app].
  rewrite split1_piece by exact Hd0.
  rewrite split1_none.
  2:{ apply Forall_app. split; [apply Hno; lia|]. apply forall_neq_of_forallb. reflexivity. }
  cbn [py_last List.last].
  unfold py_replace. change (s2l ".json") with (46 :: s2l "json").
  unfold py_split.
  rewrite (DigitFacts.split_go_skip (46 :: s2l "json") [] rid)
    by (try discriminate; apply (Hno 46); lia).
  pose proof (DigitFacts.split_go_sep 46 (s2l "json") (rev rid ++ []) []) as E.
  rewrite !app_nil_r in E. rewrite !app_nil_r, E, rev_involutive.
  cbn [split_go rev py_join].
  rewrite !app_nil_r.
  change (s2l "_c") with (95 :: s2l "c"). change (s2l "_s") with (95 :: s2l "s").
  rewrite !py_in_absent by (apply Hno; lia).
  reflexivity.
Qed.

(** The paths [f"outbox/{request_id}.json"] and [f"inbox/{request_id}.json"]
    of the HTTP and SOCKS5 proxies: [_parse_storage_path] gives back the
    request id made by [generate_request_id], as a whole-message path. *)
Theorem parse_storage_path_request_id (py_int : pystr -> option Z)
    (ts : Z) (hex dir : pystr) :
  forallb RequestId.is_hex_char (firstn 3 hex) = true ->
  (dir = s2l "outbox/" \/ dir = s2l "inbox/") ->
  parse_storage_path py_int (dir ++ RequestId.generate_request_id ts hex ++ s2l ".json") =
  Some (RequestId.generate_request_id ts hex, s2l "H", None).
Proof. apply request_id_path. Qed.

Lemma parse_storage_path_request_id_witness :
  forallb RequestId.is_hex_char (firstn 3 (s2l "3fa9c1")) = true /\
  parse_storage_path Title.ascii_int
    (s2l "outbox/" ++ RequestId.generate_request_id 1700000000000 (s2l "3fa9c1") ++ s2l ".json") =
  Some (RequestId.generate_request_id 1700000000000 (s2l "3fa9c1"), s2l "H", None).
Proof.
  split; [reflexivity|].
  apply parse_storage_path_request_id; [reflexivity|left; reflexivity].
Defined.

End PathFacts.

(* ------------------------------------------------------------------ *)
(** ** From the sender's units to the receiver's inbox
    ([_queue_entry], [do_send], [_process_batch], [_store_entry]) *)

Module TransportFacts.
Import Inbox Title Codec Receiver.

Lemma split_once_app c a b : ~ In c a -> split_once c (a ++ c :: b) = Some (a, b).
Proof.
  induction a as [|x a IH]; intros Hn; simpl.
  - rewrite Z.eqb_refl. reflexivity.
  - rewrite (proj2 (Z.eqb_neq x c)) by (intros ->; apply Hn; left; reflexivity).
    rewrite IH by (intros H; apply Hn; right; exact H). reflexivity.
Qed.

(** [sep.join(ls).split(sep)] gives back [ls] when no piece holds [sep]. *)
Lemma join_split c ls :
  ls <> [] -> Forall (fun l => Forall (fun x => x <> c) l) ls ->
  py_split [c] (py_join [c] ls) = ls.
Proof.
  induction ls as [|x ls IH]; intros Hne Hf; [congruence|].
  inversion Hf as [|x' ls' Hx Hls]; subst.
  destruct ls as [|y ls].
  - apply PathFacts.split1_none, Hx.
  - change (py_join [c] (x :: y :: ls)) with (x ++ c :: py_join [c] (y :: ls)).
    rewrite PathFacts.split1_piece by exact Hx.
    rewrite IH by (try discriminate; exact Hls). reflexivity.
Qed.

Lemma py_join_nonempty sep x r : x <> [] -> py_join sep (x :: r) <> [].
Proof.
  intros Hx. destruct r as [|y r]; simpl; [exact Hx|].
  intros H. apply app_eq_nil in H as [H _]. contradiction.
Qed.

Lemma fmt05_chars n :
  0 <= n <= 99999 -> Forall (fun x => 48 <= x <= 57) (fmt05 n).
Proof.
  intros Hn. destruct (DigitFacts.fmt05_spec n Hn) as (_ & Ha & _).
  apply List.Forall_forall. intros x Hx.
  pose proof (proj1 (forallb_forall _ _) Ha x Hx) as Hc.
  unfold is_ascii_digit in Hc. apply andb_true_iff in Hc as [H1 H2].
  apply Z.leb_le in H1, H2. lia.
Qed.

Lemma type_word (uword : Z -> bool)
    (Huw : forall c, ascii_word c = true -> uword c = true) ty :
  (ty = TYPE_DATA \/ ty = TYPE_RQST \/ ty = TYPE_RESP) ->
  length ty = 4%nat /\ forallb uword ty = true /\
  Forall (fun x => x <> 9 /\ x <> 10) ty.
Proof.
  intros Hty.
  assert (H : length ty = 4%nat /\ forallb ascii_word ty = true /\
              Forall (fun x => x <> 9 /\ x <> 10) ty).
  { destruct Hty as [->|[->| ->]]; vm_compute;
      (split; [reflexivity|split; [reflexivity|repeat constructor; lia]]). }
  destruct H as (H1 & H2 & H3). split; [exact H1|split; [|exact H3]].
  apply forallb_forall. intros x Hx. apply Huw.
  exact (proj1 (forallb_forall _ _) H2 x Hx).
Qed.

Lemma title_chars d rid c t ty :
  (d = 60 \/ d = 62) -> Forall (fun x => x <> 9 /\ x <> 10) rid ->
  0 <= c <= 99999 -> 0 <= t <= 99999 -> Forall (fun x => x <> 9 /\ x <> 10) ty ->
  Forall (fun x => x <> 9 /\ x <> 10) (make_title d rid c t ty).
Proof.
  intros Hd Hr Hc Ht Hty. unfold make_title.
  assert (Hf : forall n, 0 <= n <= 99999 -> Forall (fun x => x <> 9 /\ x <> 10) (fmt05 n)).
  { intros n Hn. generalize (fmt05_chars n Hn). apply List.Forall_impl. intros x Hx. lia. }
  rewrite !Forall_app.
  split; [constructor; [lia|constructor]|].
  split; [exact Hr|].
  split; [constructor; [lia|constructor]|].
  split; [apply Hf, Hc|].
  split; [constructor; [lia|constructor]|].
  split; [apply Hf, Ht|].
  split; [constructor; [lia|constructor]|].
  exact Hty.
Qed.

Section Transport.
Variable b65536_encode : bytes -> pystr.
Variable b65536_decode : pystr -> option bytes.
Variable aesgcm_encrypt : bytes -> bytes -> bytes -> bytes.
Variable aesgcm_decrypt : bytes -> bytes -> bytes -> option bytes.
Variable udecimal : Z -> option Z.
Variable uword : Z -> bool.
Hypothesis Hdec : forall b, b65536_decode (b65536_encode b) = Some b.
Hypothesis Haes : forall key nonce d,
  length nonce = 12%nat -> aesgcm_decrypt key nonce (aesgcm_encrypt key nonce d) = Some d.
Hypothesis Hnl : forall b, Forall (fun x => x <> 10) (b65536_encode b).
Hypothesis Hud : forall k, 0 <= k <= 9 -> udecimal (48 + k) = Some k.
Hypothesis Huw : forall c, ascii_word c = true -> uword c = true.

Lemma recv_send_payload cph nonce data :
  length nonce = 12%nat ->
  recv_payload b65536_decode aesgcm_decrypt cph
    (send_payload b65536_encode aesgcm_encrypt cph nonce data) = Some data.
Proof.
  intros Hn. unfold recv_payload, send_payload. rewrite Hdec.
  unfold decrypt_data, encrypt_data. destruct cph as [key|]; [|reflexivity].
  rewrite firstn_app, skipn_app, Hn, Nat.sub_diag, firstn_O, skipn_O, app_nil_r.
  rewrite <- Hn, firstn_all, skipn_all. simpl. apply Haes, Hn.
Qed.

Lemma process_line_unit role cph st t e p data :
  t <> [] -> ~ In 9 t ->
  parse_title udecimal uword t = Some p -> p_direction p = recv_direction role ->
  recv_payload b65536_decode aesgcm_decrypt cph e = Some data ->
  process_line udecimal uword b65536_decode aesgcm_decrypt role cph st (t ++ [9] ++ e) =
  store_entry p data st.
Proof.
  intros Hne Ht Hp Hd He. unfold process_line. change ([9] ++ e) with (9 :: e).
  rewrite split_once_app by exact Ht. rewrite Hp, Hd, Z.eqb_refl. simpl negb.
  rewrite He. destruct t; [congruence|reflexivity].
Qed.

(** A batch travels intact: the note [do_send] writes for a list of units
    built as [_queue_entry] builds them (title [dir + rid:chunk/total:type],
    payload encrypted then encoded, lines [title\tpayload] joined by
    newlines, note title the sender's direction) is taken by the peer's
    [_process_batch], which stores every unit, in order, with
    [_store_entry], and asks for the note to be cleared.  The request ids
    have 16 characters without tab or newline, chunk numbers and totals
    fit in five digits, the types are DATA, RQST or RESP and the nonces
    have 12 bytes; base65536 never writes a newline and its decoder and
    AES-GCM invert their encoder. *)
Theorem batch_transport (role_s role_r : pystr) (cph : option bytes)
    (units : list (parsed * bytes * bytes)) (st : inbox) :
  send_direction role_s = recv_direction role_r ->
  units <> [] ->
  Forall (fun '(p, nonce, _) =>
            p_direction p = send_direction role_s /\
            length (p_request_id p) = 16%nat /\
            Forall (fun x => x <> 9 /\ x <> 10) (p_request_id p) /\
            0 <= p_chunk p <= 99999 /\ 0 <= p_total p <= 99999 /\
            (p_type p = TYPE_DATA \/ p_type p = TYPE_RQST \/ p_type p = TYPE_RESP) /\
            length nonce = 12%nat) units ->
  let items := map (fun '(p, nonce, data) =>
                      (make_title (p_direction p) (p_request_id p) (p_chunk p)
                                  (p_total p) (p_type p),
                       send_payload b65536_encode aesgcm_encrypt cph nonce data)) units in
  process_batch udecimal uword b65536_decode aesgcm_decrypt role_r cph
    [send_direction role_s] (Sender.snippet items) st =
  (fold_left (fun st '(p, _, data) => store_entry p data st) units st, true).
Proof.
  intros Hpeer Hne Hok. cbv zeta.
  assert (Hdir : forall r, send_direction r = 60 \/ send_direction r = 62).
  { intros r. unfold send_direction. destruct (pystr_eqb r (s2l "client")); auto. }
  (* every line, its title and its payload *)
  set (line := fun u : parsed * bytes * bytes =>
         let '(p, nonce, data) := u in
         make_title (p_direction p) (p_request_id p) (p_chunk p) (p_total p) (p_type p)
         ++ [9] ++ send_payload b65536_encode aesgcm_encrypt cph nonce data).
  assert (Hsn : Sender.snippet (map (fun '(p, nonce, data) =>
                      (make_title (p_direction p) (p_request_id p) (p_chunk p)
                                  (p_total p) (p_type p),
                       send_payload b65536_encode aesgcm_encrypt cph nonce data)) units) =
                py_join [10] (map line units)).
  { unfold Sender.snippet. rewrite map_map. f_equal. apply map_ext.
    intros [[p nonce] data]. reflexivity. }
  rewrite Hsn.
  assert (Hlines : Forall (fun l => Forall (fun x => x <> 10) l /\ l <> []) (map line units)).
  { apply Forall_map. revert Hok. apply List.Forall_impl.
    intros [[[d rid c t ty] nonce] data] (Hd & Hl & Hr & Hc & Ht & Hty & Hn).
    cbn [p_direction p_request_id p_chunk p_total p_type] in *.
    subst d. unfold line. cbv beta iota.
    cbn [p_direction p_request_id p_chunk p_total p_type].
    destruct (type_word uword Huw ty Hty) as (_ & _ & Hty').
    pose proof (title_chars _ rid c t ty (Hdir role_s) Hr Hc Ht Hty') as Htc.
    split.
    - rewrite !Forall_app. split; [|split].
      + revert Htc. apply List.Forall_impl. intros x Hx. apply Hx.
      + constructor; [lia|constructor].
      + apply Hnl.
    - unfold make_title. cbn [app]. discriminate. }
  destruct units as [|u0 us]; [congruence|].
  assert (Hsnip : py_join [10] (map line (u0 :: us)) <> []).
  { apply py_join_nonempty. inversion Hlines as [|? ? [_ H] _]. exact H. }
  unfold process_batch. rewrite Hpeer, Z.eqb_refl. simpl negb. cbv iota.
  destruct (py_join [10] (map line (u0 :: us))) as [|z0 zs] eqn:Ez; [contradiction|].
  rewrite <- Ez. rewrite join_split.
  2:{ discriminate. }
  2:{ revert Hlines. apply List.Forall_impl. intros l [Hl _]. exact Hl. }
  f_equal. generalize st. clear Hsn Hsnip Ez Hlines z0 zs Hne.
  induction Hok as [|[[p nonce] data] us' Hu Hus IH]; [reflexivity|].
  intros st0. cbn [map fold_left]. rewrite IH. f_equal.
  unfold line. cbv beta iota.
  destruct p as [d rid c t ty]. cbn [p_direction p_request_id p_chunk p_total p_type] in *.
  destruct Hu as (Hd & Hl & Hr & Hc & Ht & Hty & Hn). subst d.
  destruct (type_word uword Huw ty Hty) as (Hty4 & Hw & Hty').
  pose proof (title_chars _ rid c t ty (Hdir role_s) Hr Hc Ht Hty') as Htc.
  apply process_line_unit.
  - unfold make_title. simpl. discriminate.
  - intros H9. rewrite List.Forall_forall in Htc. apply (proj1 (Htc 9 H9)). reflexivity.
  - apply TitleTrip.parse_make_title_gen; try assumption.
    + apply Hdir.
    + intros H10. rewrite List.Forall_forall in Hr. apply (proj2 (Hr 10 H10)). reflexivity.
  - simpl. exact Hpeer.
  - apply recv_send_payload, Hn.
Qed.

End Transport.

Lemma hi_roundtrip b : Standins.hi_decode (Standins.hi_encode b) = Some b.
Proof.
  induction b as [|x b IH]; [reflexivity|].
  unfold Standins.hi_decode, Standins.hi_encode in *. simpl.
  rewrite Z.add_simpl_l, Nat2Z.id, Byte.of_to_nat. simpl. rewrite IH. reflexivity.
Qed.

Lemma hi_no_newline b : Forall (fun x => x <> 10) (Standins.hi_encode b).
Proof.
  unfold Standins.hi_encode. apply Forall_map, List.Forall_forall. intros x _. lia.
Qed.

Lemma batch_transport_witness :
  let rid := s2l "1700000000000abc" in
  let nonce := [x00; x01; x02; x03; x04; x05; x06; x07; x08; x09; x0a; x0b] in
  process_batch ascii_decimal ascii_word Standins.hi_decode plain_decrypt
    (s2l "server") (Some [x2a]) [send_direction (s2l "client")]
    (Sender.snippet
       [(make_title 62 rid 1 0 TYPE_DATA,
         send_payload Standins.hi_encode plain_encrypt (Some [x2a]) nonce [x41; x42]);
        (make_title 62 rid 1 1 TYPE_RQST,
         send_payload Standins.hi_encode plain_encrypt (Some [x2a]) nonce [x0a; x09])])
    empty_inbox =
  (fold_left (fun st '(p, _, data) => store_entry p data st)
     [(mk_parsed 62 rid 1 0 TYPE_DATA, nonce, [x41; x42]);
      (mk_parsed 62 rid 1 1 TYPE_RQST, nonce, [x0a; x09])] empty_inbox, true).
Proof.
  apply (batch_transport Standins.hi_encode Standins.hi_decode plain_encrypt plain_decrypt
           ascii_decimal ascii_word hi_roundtrip CodecFacts.plain_roundtrip hi_no_newline
           TitleTrip.ascii_decimal_digit (fun c H => H)
           (s2l "client") (s2l "server") (Some [x2a])
           [(mk_parsed 62 (s2l "1700000000000abc") 1 0 TYPE_DATA,
             [x00; x01; x02; x03; x04; x05; x06; x07; x08; x09; x0a; x0b], [x41; x42]);
            (mk_parsed 62 (s2l "1700000000000abc") 1 1 TYPE_RQST,
             [x00; x01; x02; x03; x04; x05; x06; x07; x08; x09; x0a; x0b], [x0a; x09])]
           empty_inbox).
  - reflexivity.
  - discriminate.
  - constructor; [|constructor; [|constructor]].
    all: cbv beta iota; cbn [p_direction p_request_id p_chunk p_total p_type].
    all: split_and!; try reflexivity; try lia.
    all: try (left; reflexivity); try (right; left; reflexivity).
    all: apply (bool_decide_unpack _); vm_compute; reflexivity.
Defined.

End TransportFacts.

(* ------------------------------------------------------------------ *)
(** ** The bytes the tunnel loops forward *)

Module TunnelBytes.
Import Tunnel Socks.

Lemma put_payloads_app t1 t2 :
  put_payloads (t1 ++ t2) = put_payloads t1 ++ put_payloads t2.
Proof. unfold put_payloads. apply flat_map_app. Qed.

Lemma send_buf_puts s :
  concat (put_payloads (trace (send_buf s))) = forwarded s.
Proof.
  unfold send_buf, forwarded. cbn [trace]. rewrite put_payloads_app, concat_app.
  simpl. rewrite app_nil_r. reflexivity.
Qed.

Lemma peer_step_fw o s : forwarded (peer_step o s) = forwarded s.
Proof.
  unfold peer_step, forwarded.
  destruct (o_head o); [destruct (o_get o) as [[|x d]|]; [|destruct (o_send_ok o)|]|];
    cbn [trace buf]; rewrite ?put_payloads_app; simpl; rewrite ?app_nil_r; reflexivity.
Qed.

Lemma peer_step_buf o s : buf (peer_step o s) = buf s.
Proof.
  unfold peer_step.
  destruct (o_head o); [destruct (o_get o) as [[|x d]|]; [|destruct (o_send_ok o)|]|];
    reflexivity.
Qed.

Lemma peer_step_puts o s :
  put_payloads (trace (peer_step o s)) = put_payloads (trace s).
Proof.
  unfold peer_step.
  destruct (o_head o); [destruct (o_get o) as [[|x d]|]; [|destruct (o_send_ok o)|]|];
    cbn [trace]; rewrite ?put_payloads_app; simpl; rewrite ?app_nil_r; reflexivity.
Qed.

Lemma flush_fw s : forwarded (set_buf [] (send_buf s)) = forwarded s.
Proof.
  unfold forwarded at 1. unfold set_buf. cbn [trace buf].
  rewrite app_nil_r. apply send_buf_puts.
Qed.

Lemma on_data_fw cs d s : forwarded (on_data cs d s) = forwarded s ++ d.
Proof.
  unfold on_data.
  destruct (cs <? Z.of_nat (length (buf s)) + Z.of_nat (length d)).
  - destruct (0 <? Z.of_nat (length (buf s))) eqn:E.
    + unfold forwarded at 1, set_buf. cbn [trace buf]. rewrite send_buf_puts. reflexivity.
    + apply Z.ltb_ge in E. destruct (buf s) eqn:Eb; [|simpl in E; lia].
      unfold forwarded, set_buf. cbn [trace buf]. rewrite Eb, app_nil_r. reflexivity.
  - unfold forwarded, set_buf. cbn [trace buf]. rewrite app_assoc. reflexivity.
Qed.

Lemma idle_flush_fw o s : forwarded (idle_flush o s) = forwarded s.
Proof.
  unfold idle_flush. destruct (_ && _); [apply flush_fw|reflexivity].
Qed.

Lemma final_flush_puts s :
  concat (put_payloads (trace (final_flush s))) = forwarded s.
Proof.
  unfold final_flush. destruct (0 <? Z.of_nat (length (buf s))) eqn:E.
  - apply send_buf_puts.
  - apply Z.ltb_ge in E. unfold forwarded. destruct (buf s); [|simpl in E; lia].
    rewrite app_nil_r. reflexivity.
Qed.

Lemma loop_reads_cons o os :
  loop_reads (o :: os) = obs_bytes o ++ (if obs_continues o then loop_reads os else []).
Proof.
  unfold obs_bytes, obs_continues. simpl.
  destruct (o_read o) as [|[|x d]|]; destruct (o_timeout o); simpl; rewrite ?app_nil_r;
    reflexivity.
Qed.

(** What one iteration must do for the loop to forward exactly what it reads. *)
Lemma run_loop_fw (iter : obs -> tstate -> tstate + tstate) :
  (forall o s, match iter o s with
               | inl s' => forwarded s' = forwarded s ++ obs_bytes o /\ obs_continues o = true
               | inr s' => forwarded s' = forwarded s ++ obs_bytes o /\ obs_continues o = false
               end) ->
  forall os s,
  let '(s', ended) := run_loop iter os s in
  concat (put_payloads (trace s')) ++ (if ended then [] else buf s') =
  forwarded s ++ loop_reads os.
Proof.
  intros Hit os. induction os as [|o os IH]; intros s; cbn [run_loop].
  - unfold forwarded. simpl. rewrite !app_nil_r. reflexivity.
  - specialize (Hit o s). rewrite loop_reads_cons.
    destruct (iter o s) as [s'|s']; destruct Hit as [Hfw Hc]; rewrite Hc.
    + specialize (IH s'). destruct (run_loop iter os s'). rewrite IH, Hfw, app_assoc.
      reflexivity.
    + rewrite app_nil_r, final_flush_puts, Hfw, !app_nil_r. reflexivity.
Qed.

Lemma client_iter_fw cs o s :
  match client_iter cs o s with
  | inl s' => forwarded s' = forwarded s ++ obs_bytes o /\ obs_continues o = true
  | inr s' => forwarded s' = forwarded s ++ obs_bytes o /\ obs_continues o = false
  end.
Proof.
  unfold client_iter, obs_bytes, obs_continues.
  destruct (o_read o) as [|[|x d]|] eqn:Er;
    try (split; [rewrite app_nil_r; reflexivity|reflexivity]);
    destruct (o_timeout o); (split; [|reflexivity]);
    rewrite peer_step_fw, idle_flush_fw; rewrite ?on_data_fw, ?app_nil_r; reflexivity.
Qed.

Lemma server_iter_fw cs o s :
  match server_iter cs o s with
  | inl s' => forwarded s' = forwarded s ++ obs_bytes o /\ obs_continues o = true
  | inr s' => forwarded s' = forwarded s ++ obs_bytes o /\ obs_continues o = false
  end.
Proof.
  unfold server_iter, obs_bytes, obs_continues.
  destruct (o_read o) as [|[|x d]|] eqn:Er;
    try (split; [rewrite peer_step_fw, app_nil_r; reflexivity|reflexivity]);
    destruct (o_timeout o); (split; [|reflexivity]);
    rewrite idle_flush_fw; rewrite ?on_data_fw, ?peer_step_fw, ?app_nil_r; reflexivity.
Qed.

Lemma socks_flush_fw cs o s :
  forwarded (if (0 <? Z.of_nat (length (buf s))) &&
                ((cs <=? Z.of_nat (length (buf s))) || o_idle_due o)
             then set_buf [] (send_buf s) else s) = forwarded s.
Proof. destruct (_ && _); [apply flush_fw|reflexivity]. Qed.

Lemma socks_iter_fw cs o s :
  match socks_iter cs o s with
  | inl s' => forwarded s' = forwarded s ++ obs_bytes o /\ obs_continues o = true
  | inr s' => forwarded s' = forwarded s ++ obs_bytes o /\ obs_continues o = false
  end.
Proof.
  unfold socks_iter, obs_bytes, obs_continues.
  destruct (o_read o) as [|[|x d]|] eqn:Er;
    try (split; [rewrite app_nil_r; reflexivity|reflexivity]);
    destruct (o_timeout o); (split; [|reflexivity]);
    rewrite peer_step_fw, socks_flush_fw; rewrite ?app_nil_r; try reflexivity;
    unfold forwarded, set_buf; cbn [trace buf]; rewrite app_assoc; reflexivity.
Qed.

(** No byte is lost, duplicated or reordered: in each of the three tunnel
    loops (HTTP CONNECT client, server, SOCKS5 client) the payloads passed
    to [put_chunk], followed by what is still buffered while the loop
    runs, are exactly the bytes read from the socket, in order; once the
    loop has ended (EOF, failed [recv] or idle timeout) the final flush
    has sent everything. *)
Theorem tunnel_bytes_conserved (chunk_size : Z) (os : list obs) :
  (let '(s, ended) := run_client chunk_size os in
   concat (put_payloads (trace s)) ++ (if ended then [] else buf s) = loop_reads os) /\
  (let '(s, ended) := run_server chunk_size os in
   concat (put_payloads (trace s)) ++ (if ended then [] else buf s) = loop_reads os) /\
  (let '(s, ended) := run_socks chunk_size os in
   concat (put_payloads (trace s)) ++ (if ended then [] else buf s) = loop_reads os).
Proof.
  split; [|split].
  - exact (run_loop_fw (client_iter chunk_size) (client_iter_fw chunk_size) os init_t).
  - exact (run_loop_fw (server_iter chunk_size) (server_iter_fw chunk_size) os init_t).
  - exact (run_loop_fw (socks_iter chunk_size) (socks_iter_fw chunk_size) os init_t).
Qed.

Lemma run_loop_inv (iter : obs -> tstate -> tstate + tstate)
    (I : tstate -> Prop) (Ok : obs -> Prop) :
  (forall o s, Ok o -> I s -> match iter o s with inl s' | inr s' => I s' end) ->
  (forall s, I s -> I (final_flush s)) ->
  forall os s, Forall Ok os -> I s -> I (fst (run_loop iter os s)).
Proof.
  intros Hit Hfin os. induction os as [|o os IH]; intros s Hos Hs; [exact Hs|].
  inversion Hos as [|o' os' Ho Hos']; subst. cbn [run_loop].
  specialize (Hit o s Ho Hs). destruct (iter o s) as [s'|s'].
  - apply IH; assumption.
  - apply Hfin, Hit.
Qed.

Lemma send_buf_sizes (P : bytes -> Prop) s :
  P (buf s) -> Forall P (put_payloads (trace s)) ->
  Forall P (put_payloads (trace (send_buf s))).
Proof.
  intros Hb Hs. unfold send_buf. cbn [trace]. rewrite put_payloads_app.
  apply Forall_app. split; [exact Hs|]. simpl. constructor; [exact Hb|constructor].
Qed.

Lemma nonempty_len (b : bytes) : 0 < Z.of_nat (length b) -> b <> [].
Proof. intros H ->. simpl in H. lia. Qed.

Section Sizes.
Variable cs : Z.
Hypothesis Hcs : 0 < cs.

Lemma on_data_Ic d s :
  d <> [] -> Z.of_nat (length d) <= cs -> (sizes_ok cs cs) s -> (sizes_ok cs cs) (on_data cs d s).
Proof.
  intros Hd Hdl [Hp Hb]. unfold on_data.
  destruct (cs <? Z.of_nat (length (buf s)) + Z.of_nat (length d)) eqn:E.
  - destruct (0 <? Z.of_nat (length (buf s))) eqn:E0.
    + apply Z.ltb_lt in E0. split; [|exact Hdl].
      apply send_buf_sizes; [split; [apply nonempty_len, E0|exact Hb]|exact Hp].
    + split; assumption.
  - apply Z.ltb_ge in E. split; [exact Hp|]. cbn [buf set_buf].
    rewrite length_app, Nat2Z.inj_add. lia.
Qed.

Lemma idle_flush_Ic o s : (sizes_ok cs cs) s -> (sizes_ok cs cs) (idle_flush o s).
Proof.
  intros [Hp Hb]. unfold idle_flush.
  destruct (0 <? Z.of_nat (length (buf s))) eqn:E0; simpl andb; [|split; assumption].
  destruct (o_idle_due o); [|split; assumption].
  apply Z.ltb_lt in E0. split; [|simpl; lia].
  apply send_buf_sizes; [split; [apply nonempty_len, E0|exact Hb]|exact Hp].
Qed.

Lemma peer_step_Ic o s : (sizes_ok cs cs) s -> (sizes_ok cs cs) (peer_step o s).
Proof. unfold sizes_ok. rewrite peer_step_puts, peer_step_buf. exact id. Qed.

Lemma final_flush_Ic s : (sizes_ok cs cs) s -> (sizes_ok cs cs) (final_flush s).
Proof.
  intros [Hp Hb]. unfold final_flush.
  destruct (0 <? Z.of_nat (length (buf s))) eqn:E0; [|split; assumption].
  apply Z.ltb_lt in E0. split; [|exact Hb].
  apply send_buf_sizes; [split; [apply nonempty_len, E0|exact Hb]|exact Hp].
Qed.

Lemma client_iter_Ic o s :
  Z.of_nat (length (obs_bytes o)) <= cs -> (sizes_ok cs cs) s ->
  match client_iter cs o s with inl s' | inr s' => (sizes_ok cs cs) s' end.
Proof.
  intros Ho Hs. unfold client_iter. unfold obs_bytes in Ho.
  destruct (o_read o) as [|[|x d]|] eqn:Er; try exact Hs.
  - destruct (o_timeout o); apply peer_step_Ic, idle_flush_Ic, Hs.
  - destruct (o_timeout o); apply peer_step_Ic, idle_flush_Ic, on_data_Ic;
      try discriminate; assumption.
Qed.

Lemma server_iter_Ic o s :
  Z.of_nat (length (obs_bytes o)) <= cs -> (sizes_ok cs cs) s ->
  match server_iter cs o s with inl s' | inr s' => (sizes_ok cs cs) s' end.
Proof.
  intros Ho Hs. unfold server_iter. unfold obs_bytes in Ho.
  destruct (o_read o) as [|[|x d]|] eqn:Er; try exact (peer_step_Ic o s Hs).
  - destruct (o_timeout o); apply idle_flush_Ic, peer_step_Ic, Hs.
  - destruct (o_timeout o); apply idle_flush_Ic, on_data_Ic;
      try discriminate; try assumption; apply peer_step_Ic, Hs.
Qed.

Lemma socks_iter_Is o s :
  Z.of_nat (length (obs_bytes o)) <= cs -> (sizes_ok (2 * cs - 1) (cs - 1)) s ->
  match socks_iter cs o s with inl s' | inr s' => (sizes_ok (2 * cs - 1) (cs - 1)) s' end.
Proof.
  intros Ho [Hp Hb]. unfold socks_iter. unfold obs_bytes in Ho.
  assert (Hstep : forall s1 : tstate,
    Forall (fun d => d <> [] /\ Z.of_nat (length d) <= 2 * cs - 1) (put_payloads (trace s1)) -> Z.of_nat (length (buf s1)) <= 2 * cs - 1 ->
    (sizes_ok (2 * cs - 1) (cs - 1)) (peer_step o (if (0 <? Z.of_nat (length (buf s1))) &&
                        ((cs <=? Z.of_nat (length (buf s1))) || o_idle_due o)
                     then set_buf [] (send_buf s1) else s1))).
  { intros s1 Hp1 Hb1. unfold sizes_ok. rewrite peer_step_puts, peer_step_buf.
    destruct (0 <? Z.of_nat (length (buf s1))) eqn:E0; simpl andb.
    - apply Z.ltb_lt in E0.
      destruct ((cs <=? Z.of_nat (length (buf s1))) || o_idle_due o) eqn:E1.
      + split; [|simpl; lia].
        apply send_buf_sizes; [split; [apply nonempty_len, E0|exact Hb1]|exact Hp1].
      + apply orb_false_iff in E1 as [E1 _]. apply Z.leb_gt in E1. split; [assumption|lia].
    - apply Z.ltb_ge in E0. split; [exact Hp1|lia]. }
  destruct (o_read o) as [|[|x d]|] eqn:Er; try (split; assumption).
  - destruct (o_timeout o); apply Hstep; try assumption; lia.
  - destruct (o_timeout o); apply Hstep; cbn [set_buf buf trace]; try assumption;
      rewrite length_app, Nat2Z.inj_add; lia.
Qed.

Lemma final_flush_Is s : (sizes_ok (2 * cs - 1) (cs - 1)) s -> (sizes_ok (2 * cs - 1) (cs - 1)) (final_flush s).
Proof.
  intros [Hp Hb]. unfold final_flush.
  destruct (0 <? Z.of_nat (length (buf s))) eqn:E0; [|split; assumption].
  apply Z.ltb_lt in E0. split; [|exact Hb].
  apply send_buf_sizes; [split; [apply nonempty_len, E0|lia]|exact Hp].
Qed.

(** Chunk sizes: when every [recv(chunk_size)] returns at most
    [chunk_size] bytes, each chunk the HTTP CONNECT client and the server
    loops pass to [put_chunk] is non-empty and at most [chunk_size] bytes;
    the SOCKS5 loop appends before it checks the size, so its chunks are
    non-empty and at most [2 * chunk_size - 1] bytes. *)
Theorem tunnel_chunk_sizes (os : list obs) :
  Forall (fun o => Z.of_nat (length (obs_bytes o)) <= cs) os ->
  Forall (fun d => d <> [] /\ Z.of_nat (length d) <= cs)
    (put_payloads (trace (fst (run_client cs os)))) /\
  Forall (fun d => d <> [] /\ Z.of_nat (length d) <= cs)
    (put_payloads (trace (fst (run_server cs os)))) /\
  Forall (fun d => d <> [] /\ Z.of_nat (length d) <= 2 * cs - 1)
    (put_payloads (trace (fst (run_socks cs os)))).
Proof.
  intros Hos.
  assert (Hc0 : (sizes_ok cs cs) init_t) by (split; [constructor|simpl; lia]).
  assert (Hs0 : (sizes_ok (2 * cs - 1) (cs - 1)) init_t) by (split; [constructor|simpl; lia]).
  split; [|split].
  - apply (run_loop_inv (client_iter cs) (sizes_ok cs cs) _ client_iter_Ic final_flush_Ic os init_t Hos Hc0).
  - apply (run_loop_inv (server_iter cs) (sizes_ok cs cs) _ server_iter_Ic final_flush_Ic os init_t Hos Hc0).
  - apply (run_loop_inv (socks_iter cs) (sizes_ok (2 * cs - 1) (cs - 1)) _ socks_iter_Is final_flush_Is os init_t Hos Hs0).
Qed.

End Sizes.

Lemma tunnel_chunk_sizes_witness :
  let os := [mk_obs (RData [x41; x42]) false false None false false;
             mk_obs (RData [x43]) false false None false false;
             mk_obs RIdle true false None false false;
             mk_obs (RData [x44; x45]) false false None false true] in
  0 < 2 /\ Forall (fun o => Z.of_nat (length (obs_bytes o)) <= 2) os /\
  Forall (fun d => d <> [] /\ Z.of_nat (length d) <= 2)
    (put_payloads (trace (fst (run_client 2 os)))) /\
  Forall (fun d => d <> [] /\ Z.of_nat (length d) <= 2)
    (put_payloads (trace (fst (run_server 2 os)))) /\
  Forall (fun d => d <> [] /\ Z.of_nat (length d) <= 2 * 2 - 1)
    (put_payloads (trace (fst (run_socks 2 os)))).
Proof.
  cbv zeta.
  assert (Hos : Forall (fun o => Z.of_nat (length (obs_bytes o)) <= 2)
            [mk_obs (RData [x41; x42]) false false None false false;
             mk_obs (RData [x43]) false false None false false;
             mk_obs RIdle true false None false false;
             mk_obs (RData [x44; x45]) false false None false true])
    by (repeat constructor; simpl; lia).
  split; [lia|]. split; [exact Hos|].
  apply (tunnel_chunk_sizes 2 ltac:(lia) _ Hos).
Defined.

End TunnelBytes.

(* ------------------------------------------------------------------ *)
(** ** The SOCKS5 loop numbers its chunks like the other loops *)

Module SocksFacts.
Import Tunnel Socks TunnelFacts.

Lemma socks_iter_ok cs o s :
  numbering_ok s ->
  match socks_iter cs o s with inl s' | inr s' => numbering_ok s' end.
Proof.
  intros H. unfold socks_iter.
  assert (Hb : numbering_ok (match o_read o with RData d => set_buf (buf s ++ d) s | _ => s end))
    by (destruct (o_read o); auto using set_buf_ok).
  assert (Hbody : forall s1, numbering_ok s1 ->
    numbering_ok (peer_step o (if (0 <? Z.of_nat (length (buf s1))) &&
                                 ((cs <=? Z.of_nat (length (buf s1))) || o_idle_due o)
                               then set_buf [] (send_buf s1) else s1))).
  { intros s1 H1. apply peer_step_ok.
    destruct (_ && _); auto using set_buf_ok, send_buf_ok. }
  destruct (o_read o) as [|[|x d]|]; try exact H;
    destruct (o_timeout o); exact (Hbody _ Hb).
Qed.

(** [Socks5Handler._tunnel_data]: whatever the socket, clock and storage
    do, the chunk numbers passed to [put_chunk] are exactly
    [1, 2, ..., chunk_id_sent], the chunks sent to the client are exactly
    [1, 2, ..., chunk_id_received], and every [head_chunk]/[get_chunk]
    asks for the chunk after the last one delivered. *)
Theorem socks_chunk_numbering (chunk_size : Z) (os : list obs) :
  numbering_ok (fst (run_socks chunk_size os)).
Proof.
  apply run_loop_ok; [|apply init_ok].
  intros o s. apply socks_iter_ok.
Qed.

End SocksFacts.

(* ------------------------------------------------------------------ *)
(** ** The sender loop keeps the queue order *)

Module SenderOrder.
Import Sender.

Lemma sender_step_order s e :
  concat (dispatched (sender_step s e)) ++ batch (sender_step s e) =
  concat (dispatched s) ++ batch s ++
    (match e with SItem t x => [(t, x)] | STick _ => [] end).
Proof.
  destruct s as [bt ch d]. destruct e as [t enc|due]; cbn [sender_step batch dispatched batch_chars].
  - destruct (nonempty bt && (MAX_SNIPPET_CHARS <? ch + item_chars (t, enc))) eqn:E;
      cbn [batch dispatched].
    + destruct bt as [|x bt]; [discriminate|]. unfold fire_send.
      rewrite concat_app. cbn [concat]. rewrite !app_nil_r, <- !app_assoc. reflexivity.
    + rewrite app_assoc. reflexivity.
  - destruct (nonempty bt && due) eqn:E; cbn [batch dispatched].
    + destruct bt as [|x bt]; [discriminate|]. unfold fire_send.
      rewrite concat_app. cbn [concat]. rewrite !app_nil_r. reflexivity.
    + rewrite app_nil_r. reflexivity.
Qed.

(** [_sender_loop] with [_fire_send]: the units drained from
    [batch_queue] leave in the order they were drained, none lost and
    none repeated: the dispatched batches, followed by the batch still
    being filled, are exactly the drained units, in order. *)
Theorem sender_keeps_order (evs : list sender_event) :
  concat (dispatched (run_sender evs)) ++ batch (run_sender evs) =
  flat_map (fun e => match e with SItem t x => [(t, x)] | STick _ => [] end) evs.
Proof.
  unfold run_sender.
  assert (Hgen : forall s,
    concat (dispatched (fold_left sender_step evs s)) ++ batch (fold_left sender_step evs s) =
    concat (dispatched s) ++ batch s ++
      flat_map (fun e => match e with SItem t x => [(t, x)] | STick _ => [] end) evs).
  { induction evs as [|e evs IH]; intros s; cbn [fold_left flat_map].
    - rewrite app_nil_r. reflexivity.
    - rewrite IH, app_assoc, sender_step_order, <- !app_assoc. reflexivity. }
  rewrite Hgen. reflexivity.
Qed.

End SenderOrder.

(* ------------------------------------------------------------------ *)
(** ** What the polling loop does with the changes it sees *)

Module PollingFacts.
Import NotePool Polling.

Lemma handle_change_ok udecimal wp rp c :
  Forall (action_ok wp rp) (handle_change udecimal wp rp c).
Proof.
  unfold handle_change.
  destruct (negb (pystr_eqb (change_type c) (s2l "update"))); [constructor|].
  destruct (negb (note_id_match udecimal (record_id c))); [constructor|].
  destruct (note_fields (fields c)) as [t sn].
  destruct t as [|x t], sn as [|y sn];
    repeat (case_bool_decide; cbn [negb]); repeat constructor; try assumption;
    discriminate.
Qed.

Lemma apply_releases_partitioned wp rp acts p :
  Forall (action_ok wp rp) acts ->
  partitioned wp p -> partitioned wp (apply_releases acts p).
Proof.
  intros Hacts. revert p. induction Hacts as [|a acts Ha _ IH]; intros p Hp; [exact Hp|].
  unfold apply_releases. cbn [fold_left]. fold (apply_releases acts).
  apply IH. destruct a as [nid|nid t sn]; [|exact Hp].
  apply (NotePoolFacts.partitioned_step wp p None); [exact Hp|].
  constructor. exact Ha.
Qed.

(** [_polling_loop]: of the changes in the deltas, it releases only
    notes of the write pool and hands to [_process_batch] only notes of
    the read pool whose title and snippet are both non-empty; so the
    releases keep the note pool split into free and busy notes of the
    write pool. *)
Theorem polling_actions (udecimal : Z -> option Z) (wp rp : list pystr)
    (items : list (list change)) :
  Forall (action_ok wp rp) (handle_deltas udecimal wp rp items) /\
  (forall p, partitioned wp p ->
     partitioned wp (apply_releases (handle_deltas udecimal wp rp items) p)).
Proof.
  assert (H : Forall (action_ok wp rp) (handle_deltas udecimal wp rp items)).
  { unfold handle_deltas. apply Forall_flat_map. apply Forall_forall. intros cs _.
    apply Forall_flat_map. apply Forall_forall. intros c _. apply handle_change_ok. }
  split; [exact H|]. intros p. apply apply_releases_partitioned with (rp := rp), H.
Qed.

Lemma polling_actions_witness :
  let wp := [s2l "1_2_3"] in
  let items := [[mk_change (s2l "update") (s2l "1_2_3") [(s2l "title", [])];
                 mk_change (s2l "update") (s2l "4_5_6")
                   [(s2l "title", s2l "t"); (s2l "snippet", s2l "s")]]] in
  partitioned wp (mk_pool ∅ (list_to_set wp)) /\
  handle_deltas Title.ascii_decimal wp [s2l "4_5_6"] items =
    [ARelease (s2l "1_2_3"); AProcess (s2l "4_5_6") (s2l "t") (s2l "s")] /\
  partitioned wp (apply_releases (handle_deltas Title.ascii_decimal wp [s2l "4_5_6"] items)
                    (mk_pool ∅ (list_to_set wp))).
Proof.
  cbv zeta.
  assert (H0 : partitioned [s2l "1_2_3"] (mk_pool ∅ (list_to_set [s2l "1_2_3"])))
    by (split; simpl; set_solver).
  split; [exact H0|]. split; [vm_compute; reflexivity|].
  apply (proj2 (polling_actions Title.ascii_decimal _ _ _)), H0.
Defined.

End PollingFacts.

(* ------------------------------------------------------------------ *)
(** ** One-shot messages: what [put] sends is what [head], [get] and
    [get_pending_request] find *)

Module ExchangeFacts.
Import Inbox Router InboxOps.

(** A single-unit message ([put] queues it with [chunk = total = 1]) for
    a request id made by [generate_request_id]: once [_store_entry] has
    stored a RESP unit, the client's [head(f"inbox/{request_id}.json")]
    is true and its [get] returns the data, removing only that entry;
    once it has stored an RQST unit, the request is queued last in
    [pending_requests], and [get_pending_request] on a queue that was
    empty returns it. *)
Theorem one_shot_exchange (py_int : pystr -> option Z) (ts : Z) (hex : pystr)
    (d : Z) (data : bytes) (st : inbox) :
  forallb RequestId.is_hex_char (firstn 3 hex) = true ->
  let rid := RequestId.generate_request_id ts hex in
  let path := s2l "inbox/" ++ rid ++ s2l ".json" in
  (let st' := store_entry (mk_parsed d rid 1 1 TYPE_RESP) data st in
   head py_int (s2l "client") st' path = Some true /\
   get py_int (s2l "client") st' path =
     Some (Some data, mk_inbox (inbox_data st)
                        (delete (inbox_key rid TYPE_RESP) (inbox_complete st))
                        (pending_requests st))) /\
  (let st' := store_entry (mk_parsed d rid 1 1 TYPE_RQST) data st in
   pending_requests st' = pending_requests st ++ [(rid, data)] /\
   (pending_requests st = [] -> (get_pending_request st').1 = Some (rid, data))).
Proof.
  intros Hhex rid path.
  assert (Hp : parse_storage_path py_int path = Some (rid, s2l "H", None))
    by (apply PathFacts.request_id_path; [exact Hhex|right; reflexivity]).
  split.
  - unfold head, get. rewrite Hp.
    unfold store_entry; cbn [p_request_id p_type p_chunk p_total].
    replace (pystr_eqb TYPE_RESP TYPE_DATA) with false by reflexivity.
    replace (1 <=? 1) with true by reflexivity.
    cbn [inbox_complete inbox_data pending_requests].
    unfold recv_type. replace (pystr_eqb (s2l "client") (s2l "client")) with true by reflexivity.
    rewrite lookup_insert_eq, delete_insert_eq.
    unfold push_if_rqst. replace (pystr_eqb TYPE_RESP TYPE_RQST) with false by reflexivity.
    split; reflexivity.
  - unfold store_entry; cbn [p_request_id p_type p_chunk p_total].
    replace (pystr_eqb TYPE_RQST TYPE_DATA) with false by reflexivity.
    replace (1 <=? 1) with true by reflexivity.
    cbn [pending_requests]. unfold push_if_rqst.
    replace (pystr_eqb TYPE_RQST TYPE_RQST) with true by reflexivity.
    split; [reflexivity|]. intros ->. reflexivity.
Qed.

Lemma one_shot_exchange_witness :
  forallb RequestId.is_hex_char (firstn 3 (s2l "3fa9c1")) = true /\
  let rid := RequestId.generate_request_id 1700000000000 (s2l "3fa9c1") in
  let path := s2l "inbox/" ++ rid ++ s2l ".json" in
  (let st' := store_entry (mk_parsed 60 rid 1 1 TYPE_RESP) [x41] empty_inbox in
   head Title.ascii_int (s2l "client") st' path = Some true /\
   get Title.ascii_int (s2l "client") st' path =
     Some (Some [x41], mk_inbox (inbox_data empty_inbox)
                        (delete (inbox_key rid TYPE_RESP) (inbox_complete empty_inbox))
                        (pending_requests empty_inbox))) /\
  (let st' := store_entry (mk_parsed 60 rid 1 1 TYPE_RQST) [x41] empty_inbox in
   pending_requests st' = pending_requests empty_inbox ++ [(rid, [x41])] /\
   (pending_requests empty_inbox = [] -> (get_pending_request st').1 = Some (rid, [x41]))).
Proof.
  split; [reflexivity|].
  exact (one_shot_exchange Title.ascii_int 1700000000000 (s2l "3fa9c1") 60 [x41]
           empty_inbox eq_refl).
Defined.

End ExchangeFacts.
